(** * Evolu common: Crypto.ts

    A shallow embedding of [packages/evolu-common/src/Crypto.ts] and of the
    primitives it calls, followed by the properties of the key derivation
    ([slip21Derive]), of the secret box ([SecretBoxLive]) and of the node
    identifiers ([NodeId], [nanoidForNodeId]).

    Bytes are [Byte.byte]; machine words are [Z] with the wrap-around written
    out; a JavaScript string is the list of its UTF-16 code units; a
    [Uint8Array] is a view (buffer, offset, length) into a heap of buffers, so
    that [subarray] aliases and [slice] copies, as in the source.  The code
    runs in a state monad over the heap and the output still to come from the
    secure random number generator.

    [Bip39] is declared in the source as an interface without an
    implementation, and is left out.  The libraries that the source imports
    (@noble/hashes, @noble/ciphers, nanoid, @effect/schema, effect) are not
    part of it; they are modelled from the standards they implement, and the
    models are checked on the vectors of these standards. *)

From Stdlib Require Import String Ascii ZArith List Lia Bool Arith.
From Stdlib.Strings Require Import Byte.
Import ListNotations.
Local Open Scope Z_scope.

(** ** Bytes and words *)

Module Bytes.

Definition to_Z (b : byte) : Z := Z.of_N (Byte.to_N b).

(** Storing a number into a [Uint8Array] keeps its low eight bits. *)
Definition of_Z (z : Z) : byte :=
  match Byte.of_N (Z.to_N (z mod 256)) with
  | Some b => b
  | None => x00
  end.

Definition xor (a b : byte) : byte := of_Z (Z.lxor (to_Z a) (to_Z b)).

Fixpoint xor_bytes (l s : list byte) : list byte :=
  match l, s with
  | a :: l', b :: s' => xor a b :: xor_bytes l' s'
  | _, _ => []
  end.

Definition zeros (n : nat) : list byte := repeat x00 n.

(** Little-endian and big-endian numbers. *)
Fixpoint le_decode (l : list byte) : Z :=
  match l with
  | [] => 0
  | b :: l' => to_Z b + 256 * le_decode l'
  end.

Fixpoint le_encode (n : nat) (z : Z) : list byte :=
  match n with
  | O => []
  | S n' => of_Z z :: le_encode n' (z / 256)
  end.

Definition be_decode (l : list byte) : Z := le_decode (rev l).
Definition be_encode (n : nat) (z : Z) : list byte := rev (le_encode n z).

(** The list [l] cut into [k] consecutive pieces of [n] elements. *)
Definition chunks {A} (n k : nat) (l : list A) : list (list A) :=
  map (fun i => firstn n (skipn (n * i) l)) (seq 0 k).

(** [l.slice(b, e)] and [l.subarray(b, e)] on the contents, for indices
    that are not negative: both ends are clamped to the length. *)
Definition range {A} (b e : nat) (l : list A) : list A :=
  firstn (e - b) (skipn b l).

Definition eqb (a b : list byte) : bool :=
  if list_eq_dec Byte.byte_eq_dec a b then true else false.

(** Hexadecimal notation for test vectors. *)
Definition hex_digit (c : ascii) : Z :=
  let n := Z.of_N (N_of_ascii c) in
  if (48 <=? n) && (n <=? 57) then n - 48
  else if (97 <=? n) && (n <=? 102) then n - 87
  else if (65 <=? n) && (n <=? 70) then n - 55
  else 0.

Fixpoint of_hex (s : string) : list byte :=
  match s with
  | String a (String b s') => of_Z (16 * hex_digit a + hex_digit b) :: of_hex s'
  | _ => []
  end.

End Bytes.

Definition bytes : Type := list byte.

(** ** SHA-512 (FIPS 180-4), the hash behind [sha512] of @noble/hashes *)

Module Sha512.

Definition w64 (x : Z) : Z := x mod 2 ^ 64.
Definition add (x y : Z) : Z := w64 (x + y).
Definition rotr (n x : Z) : Z :=
  Z.lor (Z.shiftr x n) (w64 (Z.shiftl x (64 - n))).
Definition shr (n x : Z) : Z := Z.shiftr x n.
Definition not64 (x : Z) : Z := Z.lxor x (2 ^ 64 - 1).

Definition Ch (x y z : Z) : Z := Z.lxor (Z.land x y) (Z.land (not64 x) z).
Definition Maj (x y z : Z) : Z :=
  Z.lxor (Z.lxor (Z.land x y) (Z.land x z)) (Z.land y z).
Definition Sigma0 (x : Z) : Z := Z.lxor (Z.lxor (rotr 28 x) (rotr 34 x)) (rotr 39 x).
Definition Sigma1 (x : Z) : Z := Z.lxor (Z.lxor (rotr 14 x) (rotr 18 x)) (rotr 41 x).
Definition sigma0 (x : Z) : Z := Z.lxor (Z.lxor (rotr 1 x) (rotr 8 x)) (shr 7 x).
Definition sigma1 (x : Z) : Z := Z.lxor (Z.lxor (rotr 19 x) (rotr 61 x)) (shr 6 x).

Definition K : list Z :=
  [ 0x428a2f98d728ae22; 0x7137449123ef65cd; 0xb5c0fbcfec4d3b2f; 0xe9b5dba58189dbbc;
    0x3956c25bf348b538; 0x59f111f1b605d019; 0x923f82a4af194f9b; 0xab1c5ed5da6d8118;
    0xd807aa98a3030242; 0x12835b0145706fbe; 0x243185be4ee4b28c; 0x550c7dc3d5ffb4e2;
    0x72be5d74f27b896f; 0x80deb1fe3b1696b1; 0x9bdc06a725c71235; 0xc19bf174cf692694;
    0xe49b69c19ef14ad2; 0xefbe4786384f25e3; 0x0fc19dc68b8cd5b5; 0x240ca1cc77ac9c65;
    0x2de92c6f592b0275; 0x4a7484aa6ea6e483; 0x5cb0a9dcbd41fbd4; 0x76f988da831153b5;
    0x983e5152ee66dfab; 0xa831c66d2db43210; 0xb00327c898fb213f; 0xbf597fc7beef0ee4;
    0xc6e00bf33da88fc2; 0xd5a79147930aa725; 0x06ca6351e003826f; 0x142929670a0e6e70;
    0x27b70a8546d22ffc; 0x2e1b21385c26c926; 0x4d2c6dfc5ac42aed; 0x53380d139d95b3df;
    0x650a73548baf63de; 0x766a0abb3c77b2a8; 0x81c2c92e47edaee6; 0x92722c851482353b;
    0xa2bfe8a14cf10364; 0xa81a664bbc423001; 0xc24b8b70d0f89791; 0xc76c51a30654be30;
    0xd192e819d6ef5218; 0xd69906245565a910; 0xf40e35855771202a; 0x106aa07032bbd1b8;
    0x19a4c116b8d2d0c8; 0x1e376c085141ab53; 0x2748774cdf8eeb99; 0x34b0bcb5e19b48a8;
    0x391c0cb3c5c95a63; 0x4ed8aa4ae3418acb; 0x5b9cca4f7763e373; 0x682e6ff3d6b2b8a3;
    0x748f82ee5defb2fc; 0x78a5636f43172f60; 0x84c87814a1f0ab72; 0x8cc702081a6439ec;
    0x90befffa23631e28; 0xa4506cebde82bde9; 0xbef9a3f7b2c67915; 0xc67178f2e372532b;
    0xca273eceea26619c; 0xd186b8c721c0c207; 0xeada7dd6cde0eb1e; 0xf57d4f7fee6ed178;
    0x06f067aa72176fba; 0x0a637dc5a2c898a6; 0x113f9804bef90dae; 0x1b710b35131c471b;
    0x28db77f523047d84; 0x32caab7b40c72493; 0x3c9ebe0a15c9bebc; 0x431d67c49c100d4c;
    0x4cc5d4becb3e42b6; 0x597f299cfc657e2a; 0x5fcb6fab3ad6faec; 0x6c44198c4a475817 ].

Record state := State
  { sa : Z; sb : Z; sc : Z; sd : Z; se : Z; sf : Z; sg : Z; sh : Z }.

Definition H0 : state :=
  State 0x6a09e667f3bcc908 0xbb67ae8584caa73b 0x3c6ef372fe94f82b 0xa54ff53a5f1d36f1
        0x510e527fade682d1 0x9b05688c2b3e6c1f 0x1f83d9abfb41bd6b 0x5be0cd19137e2179.

(** The message schedule, newest word first: [extend n ws] adds [n] words
    to the words [ws] computed so far. *)
Fixpoint extend (n : nat) (ws : list Z) : list Z :=
  match n with
  | O => ws
  | S n' =>
      let w := add (add (sigma1 (nth 1 ws 0)) (nth 6 ws 0))
                   (add (sigma0 (nth 14 ws 0)) (nth 15 ws 0)) in
      extend n' (w :: ws)
  end.

Definition schedule (block : bytes) : list Z :=
  rev (extend 64 (rev (map Bytes.be_decode (Bytes.chunks 8 16 block)))).

Definition round (s : state) (kw : Z * Z) : state :=
  let (k, w) := kw in
  let t1 := add (add (add (add (sh s) (Sigma1 (se s))) (Ch (se s) (sf s) (sg s))) k) w in
  let t2 := add (Sigma0 (sa s)) (Maj (sa s) (sb s) (sc s)) in
  State (add t1 t2) (sa s) (sb s) (sc s) (add (sd s) t1) (se s) (sf s) (sg s).

Definition compress (h : state) (block : bytes) : state :=
  let s := fold_left round (combine K (schedule block)) h in
  State (add (sa h) (sa s)) (add (sb h) (sb s)) (add (sc h) (sc s)) (add (sd h) (sd s))
        (add (se h) (se s)) (add (sf h) (sf s)) (add (sg h) (sg s)) (add (sh h) (sh s)).

(** One [0x80] byte, zeros up to 112 modulo 128, the bit length on 16 bytes. *)
Definition pad (msg : bytes) : bytes :=
  let n := length msg in
  msg ++ [x80] ++ Bytes.zeros ((128 - (n + 17) mod 128) mod 128)%nat
      ++ Bytes.be_encode 16 (8 * Z.of_nat n).

Definition digest (s : state) : bytes :=
  flat_map (Bytes.be_encode 8) [sa s; sb s; sc s; sd s; se s; sf s; sg s; sh s].

(** Modelled from the spec: [sha512] of @noble/hashes is not among the
    sources; the spec names the primitive HMAC-SHA512, and this is SHA-512 as
    FIPS 180-4 defines it. *)
Definition sha512 (msg : bytes) : bytes :=
  let p := pad msg in
  digest (fold_left compress (Bytes.chunks 128 (length p / 128) p) H0).

Definition blockLen : nat := 128.
Definition outputLen : nat := 64.

End Sha512.

(** ** HMAC (RFC 2104) *)

Module Hmac.

Definition block_key (hash : bytes -> bytes) (blockLen : nat) (key : bytes) : bytes :=
  let k := if (blockLen <? length key)%nat then hash key else key in
  k ++ Bytes.zeros (blockLen - length k).

Definition pad_with (c : byte) (k : bytes) : bytes := map (Bytes.xor c) k.

(** Modelled from the spec: [hmac] of @noble/hashes is not among the
    sources; this is HMAC as RFC 2104 defines it: a key longer than a block is
    hashed, a shorter one is filled with zeros. *)
Definition hmac (hash : bytes -> bytes) (blockLen : nat) (key msg : bytes) : bytes :=
  let k := block_key hash blockLen key in
  hash (pad_with x5c k ++ hash (pad_with x36 k ++ msg)).

Definition hmac_sha512 : bytes -> bytes -> bytes := hmac Sha512.sha512 Sha512.blockLen.

End Hmac.

(** ** JavaScript strings and [TextEncoder] *)

(** A JavaScript string is a sequence of UTF-16 code units. *)
Definition JsString : Type := list Z.

(** The string of a literal written in ASCII (or Latin-1). *)
Definition str (s : string) : JsString :=
  map (fun c => Z.of_N (N_of_ascii c)) (list_ascii_of_string s).

Module TextEncoder.

Definition is_high (u : Z) : bool := (0xD800 <=? u) && (u <=? 0xDBFF).
Definition is_low (u : Z) : bool := (0xDC00 <=? u) && (u <=? 0xDFFF).

Definition cont (z : Z) : byte := Bytes.of_Z (Z.lor 0x80 (Z.land z 0x3F)).

(** U+FFFD, written for a surrogate that has no partner. *)
Definition replacement : bytes := [xef; xbf; xbd].

(** Modelled from the spec: [TextEncoder] belongs to the platform; this is
    [utf8(label)] of the spec, the UTF-8 encoding of the string, with U+FFFD
    for a surrogate without its partner. *)
Fixpoint encode (s : JsString) : bytes :=
  match s with
  | [] => []
  | u :: rest =>
      if u <? 0x80 then Bytes.of_Z u :: encode rest
      else if u <? 0x800 then
        Bytes.of_Z (Z.lor 0xC0 (Z.shiftr u 6)) :: cont u :: encode rest
      else if is_high u then
        match rest with
        | lo :: rest' =>
            if is_low lo then
              let cp := 0x10000 + Z.shiftl (u - 0xD800) 10 + (lo - 0xDC00) in
              Bytes.of_Z (Z.lor 0xF0 (Z.shiftr cp 18)) :: cont (Z.shiftr cp 12)
                :: cont (Z.shiftr cp 6) :: cont cp :: encode rest'
            else replacement ++ encode rest
        | [] => replacement
        end
      else if is_low u then replacement ++ encode rest
      else
        Bytes.of_Z (Z.lor 0xE0 (Z.shiftr u 12)) :: cont (Z.shiftr u 6)
          :: cont u :: encode rest
  end.

End TextEncoder.

(** ** Salsa20, HSalsa20 and the XSalsa20 key stream, behind [secretbox] of
    @noble/ciphers *)

Module Salsa.

Definition w32 (x : Z) : Z := x mod 2 ^ 32.
Definition rotl (x n : Z) : Z :=
  Z.lor (w32 (Z.shiftl x n)) (Z.shiftr x (32 - n)).

Fixpoint set_nth (i : nat) (v : Z) (x : list Z) : list Z :=
  match x, i with
  | [], _ => []
  | _ :: x', O => v :: x'
  | a :: x', S i' => a :: set_nth i' v x'
  end.

Definition get (i : nat) (x : list Z) : Z := nth i x 0.

Definition quarterround (a b c d : nat) (x : list Z) : list Z :=
  let x := set_nth b (Z.lxor (get b x) (rotl (w32 (get a x + get d x)) 7)) x in
  let x := set_nth c (Z.lxor (get c x) (rotl (w32 (get b x + get a x)) 9)) x in
  let x := set_nth d (Z.lxor (get d x) (rotl (w32 (get c x + get b x)) 13)) x in
  set_nth a (Z.lxor (get a x) (rotl (w32 (get d x + get c x)) 18)) x.

Definition columnround (x : list Z) : list Z :=
  quarterround 15 3 7 11 (quarterround 10 14 2 6
    (quarterround 5 9 13 1 (quarterround 0 4 8 12 x))).

Definition rowround (x : list Z) : list Z :=
  quarterround 15 12 13 14 (quarterround 10 11 8 9
    (quarterround 5 6 7 4 (quarterround 0 1 2 3 x))).

Definition doubleround (x : list Z) : list Z := rowround (columnround x).

Fixpoint rounds (n : nat) (x : list Z) : list Z :=
  match n with
  | O => x
  | S n' => rounds n' (doubleround x)
  end.

(** The constants spell [expand 32-byte k]. *)
Definition sigma (i : nat) : Z :=
  nth i [0x61707865; 0x3320646e; 0x79622d32; 0x6b206574] 0.

Definition words (n : nat) (l : bytes) : list Z :=
  map Bytes.le_decode (Bytes.chunks 4 n l).

(** The input block: constants on the diagonal, the key around them, and
    sixteen bytes [n] of nonce and counter in the middle. *)
Definition init (key n : bytes) : list Z :=
  let k := words 8 key in
  let m := words 4 n in
  [sigma 0; get 0 k; get 1 k; get 2 k; get 3 k; sigma 1; get 0 m; get 1 m;
   get 2 m; get 3 m; sigma 2; get 4 k; get 5 k; get 6 k; get 7 k; sigma 3].

Definition serialize (idx : list nat) (x : list Z) : bytes :=
  flat_map (fun i => Bytes.le_encode 4 (get i x)) idx.

(** The Salsa20 block of counter [i]: twenty rounds, then the input is added
    back. *)
Definition block (key nonce8 : bytes) (i : nat) : bytes :=
  let x := init key (nonce8 ++ Bytes.le_encode 8 (Z.of_nat i)) in
  let z := rounds 10 x in
  serialize (seq 0 16) (map (fun p => w32 (fst p + snd p)) (combine x z)).

(** HSalsa20: twenty rounds, no addition, eight of the sixteen words. *)
Definition hsalsa (key nonce16 : bytes) : bytes :=
  serialize [0; 5; 10; 15; 6; 7; 8; 9]%nat (rounds 10 (init key nonce16)).

(** Modelled from the spec: the cipher of @noble/ciphers is not among the
    sources; the spec names it XSalsa20-Poly1305.
    The first [n] bytes of the XSalsa20 key stream of a 32-byte key and a
    24-byte nonce: HSalsa20 on the first 16 bytes of the nonce gives the key
    of a Salsa20 stream on the last 8, whose blocks are counted from 0. *)
Definition xsalsa20_stream (key nonce : bytes) (n : nat) : bytes :=
  let subkey := hsalsa key (firstn 16 nonce) in
  firstn n (flat_map (block subkey (skipn 16 nonce)) (seq 0 ((n + 63) / 64))).

End Salsa.

(** ** Poly1305 (RFC 8439, section 2.5) *)

Module Poly1305.

Definition p : Z := 2 ^ 130 - 5.
Definition clamp (r : Z) : Z := Z.land r 0x0ffffffc0ffffffc0ffffffc0fffffff.

Definition blocks (msg : bytes) : list bytes :=
  Bytes.chunks 16 ((length msg + 15) / 16) msg.

Definition absorb (r acc : Z) (blk : bytes) : Z :=
  ((acc + Bytes.le_decode (blk ++ [x01])) * r) mod p.

(** Modelled from the spec: the authenticator of XSalsa20-Poly1305, as
    RFC 8439 defines it; the key is [r] on 16 bytes, clamped, then [s]. *)
Definition poly1305 (msg key : bytes) : bytes :=
  let r := clamp (Bytes.le_decode (firstn 16 key)) in
  let s := Bytes.le_decode (Bytes.range 16 32 key) in
  Bytes.le_encode 16 (fold_left (absorb r) (blocks msg) 0 + s).

End Poly1305.

(** ** XSalsa20-Poly1305 as [xsalsa20poly1305] of @noble/ciphers lays it out *)

Module XSalsa20Poly1305.

Definition keyLength : nat := 32.
Definition nonceLength : nat := 24.
Definition tagLength : nat := 16.

(** The first 32 bytes of the key stream are the one-time Poly1305 key, the
    rest encrypts. *)
Definition authKey (key nonce : bytes) : bytes :=
  Salsa.xsalsa20_stream key nonce 32.

Definition crypt (key nonce data : bytes) : bytes :=
  Bytes.xor_bytes data (skipn 32 (Salsa.xsalsa20_stream key nonce (32 + length data))).

(** Modelled from the spec: [c = XSalsa20-Poly1305(key, nonce, plaintext)],
    plaintext length + 16-byte tag, in the layout of secretbox: the tag comes
    first, then the encrypted text. *)
Definition encrypt (key nonce plaintext : bytes) : bytes :=
  let c := crypt key nonce plaintext in
  Poly1305.poly1305 c (authKey key nonce) ++ c.

Inductive failure := TooShort | InvalidTag.

(** Modelled from the spec: authenticated decryption; it fails on fewer
    bytes than a tag, fails if the tag does not verify, and decrypts only
    then. *)
Definition decrypt (key nonce ciphertext : bytes) : bytes + failure :=
  if (length ciphertext <? tagLength)%nat then inr TooShort
  else
    let tag := firstn tagLength ciphertext in
    let c := skipn tagLength ciphertext in
    if Bytes.eqb tag (Poly1305.poly1305 c (authKey key nonce))
    then inl (crypt key nonce c)
    else inr InvalidTag.

End XSalsa20Poly1305.

(** ** Typed arrays, the random source and effects *)

(** A [Uint8Array] is a window on a buffer of the heap. *)
Record Uint8Array := View { buffer : nat; byteOffset : nat; byteLength : nat }.

(** The heap holds the buffers allocated so far; [entropy] is the output
    the secure random number generator has still to deliver. *)
Record World := MkWorld { heap : list bytes; entropy : nat -> byte }.

(** What the libraries throw: a byte array of the wrong length, encrypted
    data shorter than a tag, a tag that does not verify, a [set] past the
    end of the target. *)
Inductive Exception := InvalidLength | DataTooShort | InvalidTagError | RangeError.

(** A call returns, throws, or is still in a loop when its fuel ends. *)
Inductive Completion (A : Type) :=
| Normal (a : A)
| Throw (e : Exception)
| Unfinished.
Arguments Normal {A} a.
Arguments Throw {A} e.
Arguments Unfinished {A}.

Definition Js (A : Type) : Type := World -> Completion A * World.

Definition ret {A} (a : A) : Js A := fun w => (Normal a, w).
Definition throw {A} (e : Exception) : Js A := fun w => (Throw e, w).
Definition bind {A B} (m : Js A) (f : A -> Js B) : Js B :=
  fun w =>
    match m w with
    | (Normal a, w') => f a w'
    | (Throw e, w') => (Throw e, w')
    | (Unfinished, w') => (Unfinished, w')
    end.

Declare Scope js_scope.
Delimit Scope js_scope with js.
Notation "x <- m ;; k" := (bind m (fun x => k))
  (at level 61, m at next level, right associativity) : js_scope.
Notation "m ;;; k" := (bind m (fun _ => k))
  (at level 61, right associativity) : js_scope.
Local Open Scope js_scope.

(** [for (let i = from; i < from + count; i++) acc = body(i, acc)] *)
Fixpoint for_loop {A} (count from : nat) (body : nat -> A -> Js A) (acc : A) : Js A :=
  match count with
  | O => ret acc
  | S c => acc' <- body from acc ;; for_loop c (S from) body acc'
  end.

Fixpoint modify {A} (i : nat) (f : A -> A) (l : list A) : list A :=
  match l, i with
  | [], _ => []
  | a :: l', O => f a :: l'
  | a :: l', S i' => a :: modify i' f l'
  end.

(** [src] written over [buf] from position [pos] on. *)
Definition overwrite (pos : nat) (src buf : bytes) : bytes :=
  firstn pos buf ++ src ++ skipn (pos + length src) buf.

(** The bytes seen through a view. *)
Definition contents (w : World) (a : Uint8Array) : bytes :=
  firstn (byteLength a) (skipn (byteOffset a) (nth (buffer a) (heap w) [])).

(** The view lies within a buffer of the heap. *)
Definition valid (w : World) (a : Uint8Array) : Prop :=
  (buffer a < length (heap w))%nat /\
  (byteOffset a + byteLength a <= length (nth (buffer a) (heap w) []))%nat.

Definition alloc (bs : bytes) : Js Uint8Array :=
  fun w => (Normal (View (length (heap w)) 0 (length bs)),
            MkWorld (heap w ++ [bs]) (entropy w)).

Definition read (a : Uint8Array) : Js bytes := fun w => (Normal (contents w a), w).

(** [new Uint8Array(n)] *)
Definition new_Uint8Array (n : nat) : Js Uint8Array := alloc (Bytes.zeros n).

(** [a[i] = v]; an index past the end is ignored. *)
Definition store (a : Uint8Array) (i : nat) (v : Z) : Js unit :=
  fun w =>
    if (i <? byteLength a)%nat then
      (Normal tt,
       MkWorld (modify (buffer a) (overwrite (byteOffset a + i) [Bytes.of_Z v]) (heap w))
               (entropy w))
    else (Normal tt, w).

(** [a.set(src, offset)] *)
Definition set (a src : Uint8Array) (offset : nat) : Js unit :=
  fun w =>
    if (offset + byteLength src <=? byteLength a)%nat then
      (Normal tt,
       MkWorld (modify (buffer a) (overwrite (byteOffset a + offset) (contents w src)) (heap w))
               (entropy w))
    else (Throw RangeError, w).

(** [a.subarray(b, e)]: a view on the same buffer. *)
Definition subarray (a : Uint8Array) (b e : nat) : Uint8Array :=
  let b' := Nat.min b (byteLength a) in
  let e' := Nat.min e (byteLength a) in
  View (buffer a) (byteOffset a + b') (e' - b').

(** [a.subarray(b)] *)
Definition subarray_from (a : Uint8Array) (b : nat) : Uint8Array :=
  subarray a b (byteLength a).

(** [a.slice(b, e)]: a copy in a buffer of its own. *)
Definition slice (a : Uint8Array) (b e : nat) : Js Uint8Array :=
  bs <- read (subarray a b e) ;; alloc bs.

(** Modelled from the spec: [randomBytes(n)] of @noble/hashes/utils, the
    secure random source: the next [n] bytes of the generator, in a new
    array. *)
Definition randomBytes (n : nat) : Js Uint8Array :=
  fun w => alloc (map (entropy w) (seq 0 n))
                 (MkWorld (heap w) (fun i => entropy w (n + i)%nat)).

(** [new TextEncoder().encode(s)] *)
Definition TextEncoder_encode (s : JsString) : Js Uint8Array :=
  alloc (TextEncoder.encode s).

(** ** effect: [Effect.sync] *)

(** How the run of an effect ends.  None of the effects below has a typed
    failure; an exception thrown inside [Effect.sync] ends the run as a
    defect. *)
Inductive Exit (A : Type) :=
| Success (a : A)
| Die (defect : Exception)
| Running.
Arguments Success {A} a.
Arguments Die {A} defect.
Arguments Running {A}.

Definition Effect (A : Type) : Type := World -> Exit A * World.

Module Effect.

(** Modelled from the spec: [Effect.sync] of effect runs the thunk when the
    effect is run. *)
Definition sync {A} (thunk : Js A) : Effect A :=
  fun w =>
    match thunk w with
    | (Normal a, w') => (Success a, w')
    | (Throw e, w') => (Die e, w')
    | (Unfinished, w') => (Running, w')
    end.

(** One effect after another, as a caller composes them. *)
Definition flatMap {A B} (m : Effect A) (f : A -> Effect B) : Effect B :=
  fun w =>
    match m w with
    | (Success a, w') => f a w'
    | (Die e, w') => (Die e, w')
    | (Running, w') => (Running, w')
    end.

End Effect.

(** ** @noble/hashes: [hmac], [sha512] *)

Module NobleHashes.

Record Hash := { hash : bytes -> bytes; blockLen : nat; outputLen : nat }.

Definition sha512 : Hash :=
  {| hash := Sha512.sha512; blockLen := Sha512.blockLen; outputLen := Sha512.outputLen |}.

(** A key or a message is a string or a byte array. *)
Inductive Input := Str (s : JsString) | Arr (a : Uint8Array).

Definition toBytes (i : Input) : Js bytes :=
  match i with
  | Str s => ret (TextEncoder.encode s)
  | Arr a => read a
  end.

(** Modelled from the spec: [hmac(hash, key, message)] reads both and
    returns a new array. *)
Definition hmac (h : Hash) (key message : Input) : Js Uint8Array :=
  k <- toBytes key ;;
  m <- toBytes message ;;
  alloc (Hmac.hmac h.(hash) h.(blockLen) k m).

End NobleHashes.

(** ** @noble/ciphers: [secretbox], [concatBytes] *)

Module NobleCiphers.

Record Cipher :=
  { seal : Uint8Array -> Js Uint8Array;
    open : Uint8Array -> Js Uint8Array }.

(** Modelled from the spec: [secretbox(key, nonce)] checks the two lengths
    (a 32-byte key, a 24-byte nonce); its [seal] and [open] read their
    arguments and return a new array, or throw. *)
Definition secretbox (key nonce : Uint8Array) : Js Cipher :=
  if negb (byteLength key =? XSalsa20Poly1305.keyLength)%nat then throw InvalidLength
  else if negb (byteLength nonce =? XSalsa20Poly1305.nonceLength)%nat then throw InvalidLength
  else ret
    {| seal := fun plaintext =>
         k <- read key ;; n <- read nonce ;; p <- read plaintext ;;
         alloc (XSalsa20Poly1305.encrypt k n p);
       open := fun ciphertext =>
         k <- read key ;; n <- read nonce ;; c <- read ciphertext ;;
         match XSalsa20Poly1305.decrypt k n c with
         | inl p => alloc p
         | inr XSalsa20Poly1305.TooShort => throw DataTooShort
         | inr XSalsa20Poly1305.InvalidTag => throw InvalidTagError
         end |}.

Fixpoint read_all (arrays : list Uint8Array) : Js (list bytes) :=
  match arrays with
  | [] => ret []
  | a :: rest => bs <- read a ;; l <- read_all rest ;; ret (bs :: l)
  end.

(** Modelled from the spec: [concatBytes(...arrays)], the arrays one after
    the other in a new array. *)
Definition concatBytes (arrays : list Uint8Array) : Js Uint8Array :=
  l <- read_all arrays ;; alloc (concat l).

End NobleCiphers.

(** ** nanoid: [nanoid], [customAlphabet] *)

Module Nanoid.

Definition urlAlphabet : JsString :=
  str "useandom-26T198340PX75pxJACKVERYMINDBUSHWOLF_GQZbfghjklqvwyzrict".

(** [alphabet[i] || ''] *)
Definition char_at (alphabet : JsString) (i : Z) : JsString :=
  match nth_error alphabet (Z.to_nat i) with
  | Some c => [c]
  | None => []
  end.

Definition byte_at (bs : bytes) (i : nat) : Z := Bytes.to_Z (nth i bs x00).

(** [while (size--) id += urlAlphabet[bytes[size] & 63]] *)
Fixpoint nanoid_loop (size : nat) (bs : bytes) (id : JsString) : JsString :=
  match size with
  | O => id
  | S size' => nanoid_loop size' bs (id ++ char_at urlAlphabet (Z.land (byte_at bs size') 63))
  end.

(** Modelled from the spec: [nanoid(size = 21)], uniform draws from the
    64-character URL-safe alphabet. *)
Definition nanoid (size : nat) : Js JsString :=
  a <- randomBytes size ;; bs <- read a ;; ret (nanoid_loop size bs []).

(** [(2 << (31 - Math.clz32((alphabet.length - 1) | 1))) - 1] *)
Definition mask_of (alphabet : JsString) : Z :=
  2 * 2 ^ Z.log2 (Z.lor (Z.of_nat (length alphabet) - 1) 1) - 1.

(** [Math.ceil((1.6 * mask * defaultSize) / alphabet.length)], with the
    product and the quotient taken exactly. *)
Definition step_of (alphabet : JsString) (defaultSize : nat) : nat :=
  let n := 16 * mask_of alphabet * Z.of_nat defaultSize in
  let d := 10 * Z.of_nat (length alphabet) in
  Z.to_nat ((n + d - 1) / d).

(** [while (i--) { id += alphabet[bytes[i] & mask] || '';
                   if (id.length === size) return id }]:
    [inl] is the [return], [inr] the end of the loop. *)
Fixpoint take (alphabet : JsString) (mask : Z) (size : nat) (bs : bytes)
  (i : nat) (id : JsString) : JsString + JsString :=
  match i with
  | O => inr id
  | S i' =>
      let id' := id ++ char_at alphabet (Z.land (byte_at bs i') mask) in
      if (length id' =? size)%nat then inl id'
      else take alphabet mask size bs i' id'
  end.

(** [while (true) { let bytes = getRandom(step); ... }], for at most [fuel]
    rounds. *)
Fixpoint generate (fuel : nat) (alphabet : JsString) (mask : Z) (step size : nat)
  (getRandom : nat -> Js Uint8Array) (id : JsString) : Js JsString :=
  match fuel with
  | O => fun w => (Unfinished, w)
  | S fuel' =>
      a <- getRandom step ;;
      bs <- read a ;;
      match take alphabet mask size bs step id with
      | inl id' => ret id'
      | inr id' => generate fuel' alphabet mask step size getRandom id'
      end
  end.

(** Modelled from the spec: [customRandom] and [customAlphabet] of nanoid
    are not among the sources; draws from the alphabet by masking random
    bytes, a byte past the end of the alphabet being dropped. *)
Definition customRandom (alphabet : JsString) (defaultSize : nat)
  (getRandom : nat -> Js Uint8Array) (fuel : nat) : Js JsString :=
  generate fuel alphabet (mask_of alphabet) (step_of alphabet defaultSize)
           defaultSize getRandom [].

Definition customAlphabet (alphabet : JsString) (size : nat) : nat -> Js JsString :=
  customRandom alphabet size randomBytes.

End Nanoid.

(** ** Regular expressions and @effect/schema, as far as [NodeId] uses them *)

Module RegExp.

Inductive Atom :=
| Word                  (* \w : a letter, a digit or the underscore *)
| Range (lo hi : ascii) (* a-f *)
| Lit (c : ascii).      (* - *)

Definition code (c : ascii) : Z := Z.of_N (N_of_ascii c).

Definition in_range (lo hi : ascii) (u : Z) : bool := (code lo <=? u) && (u <=? code hi).

Definition atom_matches (a : Atom) (u : Z) : bool :=
  match a with
  | Word => in_range "a" "z" u || in_range "A" "Z" u || in_range "0" "9" u
            || (u =? code "_")
  | Range lo hi => in_range lo hi u
  | Lit c => u =? code c
  end.

(** A character class [[...]] with its count [{n}]. *)
Record Item := { class : list Atom; times : nat }.

(** [^ item ... item $] *)
Definition RegExp : Type := list Item.

Definition class_matches (cl : list Atom) (u : Z) : bool :=
  existsb (fun a => atom_matches a u) cl.

Fixpoint eat (cl : list Atom) (n : nat) (s : JsString) : option JsString :=
  match n with
  | O => Some s
  | S n' =>
      match s with
      | u :: s' => if class_matches cl u then eat cl n' s' else None
      | [] => None
      end
  end.

(** Modelled from the spec: [re.test(s)] for the expressions above, the
    whole string being matched. *)
Fixpoint test (re : RegExp) (s : JsString) : bool :=
  match re with
  | [] => match s with [] => true | _ => false end
  | it :: re' =>
      match eat it.(class) it.(times) s with
      | Some s' => test re' s'
      | None => false
      end
  end.

End RegExp.

Module S.

(** A schema on strings is the test it puts them to. *)
Definition Schema : Type := JsString -> bool.

Definition string : Schema := fun _ => true.

(** Modelled from the spec: [S.pattern] of @effect/schema keeps the strings
    that the expression matches. *)
Definition pattern (re : RegExp.RegExp) (self : Schema) : Schema :=
  fun s => self s && RegExp.test re s.

Definition brand (name : String.string) (self : Schema) : Schema := self.

(** [S.is(schema)(s)] *)
Definition is_ (schema : Schema) (s : JsString) : bool := schema s.

End S.

(** ** Crypto.ts *)

(** The argument of [nanoidAsNodeId] bounds the rounds of the generator's
    loop. *)
Record NanoIdGenerator :=
  { nanoid : Effect JsString;
    nanoidAsNodeId : nat -> Effect JsString }.

(** [/^[\w-]{16}$/] *)
Definition NodeId_pattern : RegExp.RegExp :=
  [ {| RegExp.class := [RegExp.Word; RegExp.Lit "-"]; RegExp.times := 16 |} ].

Definition NodeId : S.Schema :=
  S.brand "NodeId" (S.pattern NodeId_pattern S.string).

Definition nanoidForNodeId : nat -> Js JsString :=
  Nanoid.customAlphabet (str "0123456789abcdef") 16.

Definition NanoIdGenerator_Live : NanoIdGenerator :=
  {| nanoid := Effect.sync (Nanoid.nanoid 21);
     nanoidAsNodeId := fun fuel => Effect.sync (nanoidForNodeId fuel) |}.

Definition slip21Derive (seed : Uint8Array) (path : list JsString) : Effect Uint8Array :=
  Effect.sync (
    m <- NobleHashes.hmac NobleHashes.sha512
           (NobleHashes.Str (str "Symmetric key seed")) (NobleHashes.Arr seed) ;;
    m <- for_loop (length path) 0 (fun i m =>
           p <- TextEncoder_encode (nth i path []) ;;
           e <- new_Uint8Array (byteLength p + 1) ;;
           store e 0 0 ;;;
           set e p 1 ;;;
           k <- slice m 0 32 ;;
           NobleHashes.hmac NobleHashes.sha512 (NobleHashes.Arr k) (NobleHashes.Arr e)) m ;;
    slice m 32 64).

Record SecretBox :=
  { seal : Uint8Array -> Uint8Array -> Effect Uint8Array;
    open : Uint8Array -> Uint8Array -> Effect Uint8Array }.

Definition SecretBoxLive : SecretBox :=
  {| seal := fun key plaintext =>
       Effect.sync (
         nonce <- randomBytes 24 ;;
         box <- NobleCiphers.secretbox key nonce ;;
         ciphertext <- NobleCiphers.seal box plaintext ;;
         NobleCiphers.concatBytes [nonce; ciphertext]);
     open := fun key ciphertext =>
       Effect.sync (
         let nonce := subarray ciphertext 0 24 in
         let ciphertextWithoutNonce := subarray_from ciphertext 24 in
         box <- NobleCiphers.secretbox key nonce ;;
         NobleCiphers.open box ciphertextWithoutNonce) |}.

(** ** The specification's words *)

Module Spec.

(** [m = HMAC-SHA512(key = "Symmetric key seed", data = seed)]; for each label
    in path order [m = HMAC-SHA512(key = m[0:32], data = 0x00 || utf8(label))];
    the result is [m[32:64]]. *)
Definition root (seed : bytes) : bytes :=
  Hmac.hmac_sha512 (TextEncoder.encode (str "Symmetric key seed")) seed.

Definition child (m : bytes) (label : JsString) : bytes :=
  Hmac.hmac_sha512 (Bytes.range 0 32 m) (x00 :: TextEncoder.encode label).

Definition derive (seed : bytes) (path : list JsString) : bytes :=
  Bytes.range 32 64 (fold_left child path (root seed)).

(** [nonce || XSalsa20-Poly1305(key, nonce, plaintext)] *)
Definition sealed (key nonce plaintext : bytes) : bytes :=
  nonce ++ XSalsa20Poly1305.encrypt key nonce plaintext.

(** [^[0-9a-f]{16}$] *)
Definition hex16 : RegExp.RegExp :=
  [ {| RegExp.class := [RegExp.Range "0" "9"; RegExp.Range "a" "f"];
       RegExp.times := 16 |} ].

(** Bit [i mod 8] of byte [i / 8] flipped. *)
Definition flip_bit (i : nat) (l : bytes) : bytes :=
  modify (i / 8) (fun b => Bytes.of_Z (Z.lxor (Bytes.to_Z b) (2 ^ Z.of_nat (i mod 8)))) l.

(** The hexadecimal digit that the low four bits of a byte select. *)
Definition hex_digit_of (b : byte) : Z :=
  nth (Z.to_nat (Z.land (Bytes.to_Z b) 15)) (str "0123456789abcdef") 0.

(** The 256 values of a byte. *)
Definition all_bytes : bytes := map (fun n => Bytes.of_Z (Z.of_nat n)) (seq 0 256).

(** A letter, a digit, the underscore or the hyphen. *)
Definition word_or_dash (u : Z) : Prop :=
  97 <= u <= 122 \/ 65 <= u <= 90 \/ 48 <= u <= 57 \/ u = 95 \/ u = 45.

(** The vector of SLIP-0021: the seed of the standard's example and the key
    of its node [m/"SLIP-0021"]. *)
Definition slip21_seed : bytes :=
  Bytes.of_hex ("c76c4ac4f4e4a00d6b274d5c39c700bb4a7ddc04fbc6f78e85ca75007b5b495f"
             ++ "74a9043eeb77bdd53aa6fc3a0e31462270316fa04b8c19114c8798706cd02ac8").

Definition slip21_key : bytes :=
  Bytes.of_hex "1d065e3ac1bbe5c7fad32cf2305f7d709dc070d672044a19e610c77cdf33de0d".

End Spec.

(** ** Frames *)

(** The random source of [w'] is that of [w] after [n] bytes. *)
Definition drawn (n : nat) (w w' : World) : Prop :=
  forall i, entropy w' i = entropy w (n + i)%nat.

(** Every buffer of [w] is in [w'] as it was. *)
Definition unchanged (w w' : World) : Prop :=
  (length (heap w) <= length (heap w'))%nat /\
  forall b, (b < length (heap w))%nat -> nth b (heap w') [] = nth b (heap w) [].

(** The array lies in a buffer that [w] does not have. *)
Definition fresh (w : World) (a : Uint8Array) : Prop :=
  (length (heap w) <= buffer a)%nat.

(** ** Sample data *)

Module Sample.

Definition key : bytes :=
  Bytes.of_hex "1b27556473e985d462cd51197a9a46c76009549eac6474f206c4ee0844f68389".

Definition message : bytes := TextEncoder.encode (str "local-first").

Definition source (i : nat) : byte := Bytes.of_Z (Z.of_nat (7 * i + 3)).

(** Buffer 0 holds a key, buffer 1 a message, buffer 2 the seed of the
    SLIP-0021 example, buffer 3 sixty-four zero bytes. *)
Definition world : World :=
  MkWorld [key; message; Spec.slip21_seed; Bytes.zeros 64] source.

(** The same seed at another place of another heap, with another random
    source. *)
Definition world2 : World :=
  MkWorld [message; x2a :: Spec.slip21_seed] (fun i => Bytes.of_Z (Z.of_nat (255 - i))).

Definition seedArray2 : Uint8Array := View 1 1 64.

Definition keyArray : Uint8Array := View 0 0 32.
Definition messageArray : Uint8Array := View 1 0 11.
Definition seedArray : Uint8Array := View 2 0 64.
Definition zeroSeedArray : Uint8Array := View 3 0 64.

End Sample.

(** ** More sample data *)


Module Box.

(** A box sealed elsewhere: the sample message under the sample key and the
    nonce of the NaCl vector. *)
Definition nonce : bytes :=
  Bytes.of_hex "69696ee955b62b73cd62bda875fc73d68219e0036b7a0b37".

Definition sealed : bytes := Spec.sealed Sample.key nonce Sample.message.

Definition world : World := MkWorld [Sample.key; sealed] Sample.source.
Definition boxArray : Uint8Array := View 1 0 51.

(** The heap after the box has been opened. *)
Definition openedWorld : World :=
  MkWorld [Sample.key; sealed; Sample.message] Sample.source.
Definition openedArray : Uint8Array := View 2 0 11.

(** The same box with bit 200, a bit of its tag, flipped. *)
Definition tamperedWorld : World :=
  MkWorld [Sample.key; Spec.flip_bit 200 sealed] Sample.source.

(** The first 31 bytes of the sample key. *)
Definition shortKeyArray : Uint8Array := View 0 0 31.

(** The sample heap with another random source. *)
Definition otherSource (i : nat) : byte := Bytes.of_Z (Z.of_nat (255 - i)).
Definition otherWorld : World := MkWorld (heap Sample.world) otherSource.

(** Two strings of one unpaired surrogate each. *)
Definition highLabel : JsString := [0xD800].
Definition lowLabel : JsString := [0xDFFF].

End Box.

(** * Properties *)

(** ** Bytes *)

Lemma to_Z_range (b : byte) : 0 <= Bytes.to_Z b < 256.
Proof.
  unfold Bytes.to_Z. pose proof (Byte.to_N_bounded b). lia.
Qed.

Lemma of_to_Z (b : byte) : Bytes.of_Z (Bytes.to_Z b) = b.
Proof.
  unfold Bytes.of_Z, Bytes.to_Z.
  rewrite Z.mod_small by (pose proof (Byte.to_N_bounded b); lia).
  rewrite N2Z.id, Byte.of_to_N. reflexivity.
Qed.

Lemma lxor_byte (a b : Z) :
  0 <= a < 256 -> 0 <= b < 256 -> 0 <= Z.lxor a b < 256.
Proof.
  intros Ha Hb. split.
  - apply Z.lxor_nonneg. lia.
  - destruct (Z.eq_dec (Z.lxor a b) 0) as [E | E]; [lia |].
    assert (0 < Z.lxor a b) by (assert (0 <= Z.lxor a b) by (apply Z.lxor_nonneg; lia); lia).
    apply (Z.log2_lt_pow2 _ 8); [assumption |].
    eapply Z.le_lt_trans; [apply Z.log2_lxor; lia |].
    apply Z.max_lub_lt.
    + destruct (Z.eq_dec a 0) as [-> | ]; [reflexivity | apply Z.log2_lt_pow2; lia].
    + destruct (Z.eq_dec b 0) as [-> | ]; [reflexivity | apply Z.log2_lt_pow2; lia].
Qed.

Lemma xor_involutive (a b : byte) : Bytes.xor (Bytes.xor a b) b = a.
Proof.
  unfold Bytes.xor at 1.
  assert (E : Bytes.to_Z (Bytes.xor a b) = Z.lxor (Bytes.to_Z a) (Bytes.to_Z b)).
  { unfold Bytes.xor, Bytes.of_Z.
    pose proof (lxor_byte _ _ (to_Z_range a) (to_Z_range b)) as R.
    rewrite Z.mod_small by exact R.
    destruct (Byte.of_N _) eqn:F.
    - apply Byte.to_of_N in F. unfold Bytes.to_Z at 1.
      replace (Byte.to_N b0) with (Z.to_N (Z.lxor (Bytes.to_Z a) (Bytes.to_Z b)))
        by congruence.
      lia.
    - exfalso. apply Byte.of_N_None_iff in F. lia. }
  rewrite E, Z.lxor_assoc, Z.lxor_nilpotent, Z.lxor_0_r. apply of_to_Z.
Qed.

Lemma length_xor_bytes (l s : bytes) :
  length (Bytes.xor_bytes l s) = Nat.min (length l) (length s).
Proof.
  revert s. induction l as [| a l IH]; intros [| b s]; simpl; auto.
Qed.

Lemma xor_bytes_involutive (l s : bytes) :
  (length l <= length s)%nat ->
  Bytes.xor_bytes (Bytes.xor_bytes l s) s = l.
Proof.
  revert s. induction l as [| a l IH]; intros [| b s] H; simpl in *; try lia; auto.
  rewrite xor_involutive, IH by lia. reflexivity.
Qed.

Lemma length_le_encode (n : nat) (z : Z) : length (Bytes.le_encode n z) = n.
Proof.
  revert z. induction n as [| n IH]; intros z; simpl; auto.
Qed.

Lemma length_be_encode (n : nat) (z : Z) : length (Bytes.be_encode n z) = n.
Proof.
  unfold Bytes.be_encode. rewrite length_rev. apply length_le_encode.
Qed.

Lemma eqb_eq (a b : bytes) : Bytes.eqb a b = true <-> a = b.
Proof.
  unfold Bytes.eqb. destruct (list_eq_dec _ a b); split; congruence.
Qed.

Lemma length_range {A} (b e : nat) (l : list A) :
  (e <= length l)%nat -> length (Bytes.range b e l) = (e - b)%nat.
Proof.
  intros H. unfold Bytes.range. rewrite length_firstn, length_skipn. lia.
Qed.

Lemma length_flat_map_const {A B} (f : A -> list B) (c : nat) (l : list A) :
  (forall x, length (f x) = c) -> length (flat_map f l) = (c * length l)%nat.
Proof.
  intros H. induction l as [| x l IH]; simpl; [lia |].
  rewrite length_app, H, IH. lia.
Qed.

(** ** The primitives *)

Arguments Sha512.sha512 : simpl never.
Arguments Hmac.hmac : simpl never.
Arguments Hmac.hmac_sha512 : simpl never.
Arguments TextEncoder.encode : simpl never.
Arguments Salsa.xsalsa20_stream : simpl never.
Arguments Salsa.block : simpl never.
Arguments Poly1305.poly1305 : simpl never.
Arguments XSalsa20Poly1305.authKey : simpl never.
Arguments XSalsa20Poly1305.crypt : simpl never.
Arguments XSalsa20Poly1305.encrypt : simpl never.
Arguments XSalsa20Poly1305.decrypt : simpl never.
Arguments Bytes.eqb : simpl never.
Arguments Bytes.of_Z : simpl never.
Arguments Bytes.to_Z : simpl never.

Lemma length_sha512 (msg : bytes) : length (Sha512.sha512 msg) = 64%nat.
Proof.
  unfold Sha512.sha512, Sha512.digest.
  rewrite (length_flat_map_const _ 8) by (intros; apply length_be_encode).
  reflexivity.
Qed.

Lemma length_hmac_sha512 (key msg : bytes) :
  length (Hmac.hmac_sha512 key msg) = 64%nat.
Proof.
  unfold Hmac.hmac_sha512, Hmac.hmac. apply length_sha512.
Qed.

Lemma length_salsa_block (key nonce8 : bytes) (i : nat) :
  length (Salsa.block key nonce8 i) = 64%nat.
Proof.
  unfold Salsa.block, Salsa.serialize.
  rewrite (length_flat_map_const _ 4) by (intros; apply length_le_encode).
  reflexivity.
Qed.

Lemma length_xsalsa20_stream (key nonce : bytes) (n : nat) :
  length (Salsa.xsalsa20_stream key nonce n) = n.
Proof.
  unfold Salsa.xsalsa20_stream.
  rewrite length_firstn, (length_flat_map_const _ 64), length_seq
    by (intros; apply length_salsa_block).
  pose proof (Nat.div_mod_eq (n + 63) 64).
  pose proof (Nat.mod_upper_bound (n + 63) 64).
  lia.
Qed.

Lemma length_poly1305 (msg key : bytes) :
  length (Poly1305.poly1305 msg key) = 16%nat.
Proof.
  unfold Poly1305.poly1305. apply length_le_encode.
Qed.

Lemma length_crypt (key nonce data : bytes) :
  length (XSalsa20Poly1305.crypt key nonce data) = length data.
Proof.
  unfold XSalsa20Poly1305.crypt.
  rewrite length_xor_bytes, length_skipn, length_xsalsa20_stream. lia.
Qed.

(** Encrypting twice under one key and one nonce gives the data back: the
    key stream depends on the length of the data only. *)
Lemma crypt_involutive (key nonce data : bytes) :
  XSalsa20Poly1305.crypt key nonce (XSalsa20Poly1305.crypt key nonce data) = data.
Proof.
  unfold XSalsa20Poly1305.crypt at 1. rewrite length_crypt.
  unfold XSalsa20Poly1305.crypt.
  apply xor_bytes_involutive.
  rewrite length_skipn, length_xsalsa20_stream. lia.
Qed.

Lemma length_encrypt (key nonce plaintext : bytes) :
  length (XSalsa20Poly1305.encrypt key nonce plaintext) = (length plaintext + 16)%nat.
Proof.
  unfold XSalsa20Poly1305.encrypt.
  rewrite length_app, length_poly1305, length_crypt. lia.
Qed.

Lemma decrypt_encrypt (key nonce plaintext : bytes) :
  XSalsa20Poly1305.decrypt key nonce (XSalsa20Poly1305.encrypt key nonce plaintext)
  = inl plaintext.
Proof.
  unfold XSalsa20Poly1305.decrypt.
  rewrite length_encrypt.
  destruct (Nat.ltb_spec (length plaintext + 16) XSalsa20Poly1305.tagLength) as [H | _];
    [unfold XSalsa20Poly1305.tagLength in H; lia |].
  unfold XSalsa20Poly1305.encrypt, XSalsa20Poly1305.tagLength.
  rewrite firstn_app, skipn_app, length_poly1305, Nat.sub_diag.
  rewrite firstn_all2, skipn_all2 by (rewrite length_poly1305; lia).
  rewrite firstn_O, skipn_O, app_nil_r. cbn [app].
  destruct (Bytes.eqb _ _) eqn:E.
  - rewrite crypt_involutive. reflexivity.
  - assert (Bytes.eqb (Poly1305.poly1305 (XSalsa20Poly1305.crypt key nonce plaintext)
                         (XSalsa20Poly1305.authKey key nonce))
                      (Poly1305.poly1305 (XSalsa20Poly1305.crypt key nonce plaintext)
                         (XSalsa20Poly1305.authKey key nonce)) = true)
      by (apply eqb_eq; reflexivity).
    congruence.
Qed.

(** What [decrypt] accepts is the encryption of what it returns. *)
Lemma decrypt_inl (key nonce c p : bytes) :
  XSalsa20Poly1305.decrypt key nonce c = inl p ->
  c = XSalsa20Poly1305.encrypt key nonce p /\
  firstn 16 c = Poly1305.poly1305 (skipn 16 c) (XSalsa20Poly1305.authKey key nonce) /\
  p = XSalsa20Poly1305.crypt key nonce (skipn 16 c).
Proof.
  unfold XSalsa20Poly1305.decrypt, XSalsa20Poly1305.tagLength.
  destruct (length c <? 16)%nat; [discriminate |].
  destruct (Bytes.eqb _ _) eqn:E; [| discriminate].
  intros H. apply eqb_eq in E.
  assert (P : p = XSalsa20Poly1305.crypt key nonce (skipn 16 c)) by congruence.
  clear H. subst p.
  split; [| split; [exact E | reflexivity]].
  unfold XSalsa20Poly1305.encrypt. rewrite crypt_involutive, <- E.
  symmetry. apply firstn_skipn.
Qed.

Lemma decrypt_short (key nonce c : bytes) :
  (length c < 16)%nat -> XSalsa20Poly1305.decrypt key nonce c = inr XSalsa20Poly1305.TooShort.
Proof.
  intros H. unfold XSalsa20Poly1305.decrypt, XSalsa20Poly1305.tagLength.
  destruct (Nat.ltb_spec (length c) 16); [reflexivity | lia].
Qed.

Lemma decrypt_bad_tag (key nonce c : bytes) :
  (16 <= length c)%nat ->
  firstn 16 c <> Poly1305.poly1305 (skipn 16 c) (XSalsa20Poly1305.authKey key nonce) ->
  XSalsa20Poly1305.decrypt key nonce c = inr XSalsa20Poly1305.InvalidTag.
Proof.
  intros H T. unfold XSalsa20Poly1305.decrypt, XSalsa20Poly1305.tagLength.
  destruct (Nat.ltb_spec (length c) 16); [lia |].
  destruct (Bytes.eqb _ _) eqn:E; [| reflexivity].
  apply eqb_eq in E. contradiction.
Qed.

(** The primitives on the vectors of their standards: SHA-512 on FIPS 180's
    [abc], HMAC-SHA512 on the first case of RFC 4231, Poly1305 on the vector
    of RFC 8439, HSalsa20 and the secret box on the vector of NaCl. *)

Example sha512_abc :
  Sha512.sha512 (TextEncoder.encode (str "abc")) =
  Bytes.of_hex ("ddaf35a193617abacc417349ae20413112e6fa4e89a97ea20a9eeee64b55d39a"
             ++ "2192992a274fc1a836ba3c23a3feebbd454d4423643ce80e2a9ac94fa54ca49f").
Proof.
  vm_compute. reflexivity.
Qed.

Example hmac_sha512_rfc4231 :
  Hmac.hmac_sha512 (repeat x0b 20) (TextEncoder.encode (str "Hi There")) =
  Bytes.of_hex ("87aa7cdea5ef619d4ff0b4241a1d6cb02379f4e2ce4ec2787ad0b30545e17cde"
             ++ "daa833b7d6b8a702038b274eaea3f4e4be9d914eeb61f1702e696c203a126854").
Proof.
  vm_compute. reflexivity.
Qed.

Example poly1305_rfc8439 :
  Poly1305.poly1305 (TextEncoder.encode (str "Cryptographic Forum Research Group"))
    (Bytes.of_hex "85d6be7857556d337f4452fe42d506a80103808afb0db2fd4abff6af4149f51b") =
  Bytes.of_hex "a8061dc1305136c6c22b8baf0c0127a9".
Proof.
  vm_compute. reflexivity.
Qed.

Example hsalsa20_nacl :
  Salsa.hsalsa Sample.key (Bytes.of_hex "69696ee955b62b73cd62bda875fc73d6") =
  Bytes.of_hex "dc908dda0b9344a953629b733820778880f3ceb421bb61b91cbd4c3e66256ce4".
Proof.
  vm_compute. reflexivity.
Qed.

Example secretbox_nacl :
  XSalsa20Poly1305.encrypt Sample.key
    (Bytes.of_hex "69696ee955b62b73cd62bda875fc73d68219e0036b7a0b37")
    (Bytes.of_hex ("be075fc53c81f2d5cf141316ebeb0c7b5228c52a4c62cbd44b66849b64244ffc"
                ++ "e5ecbaaf33bd751a1ac728d45e6c61296cdc3c01233561f41db66cce314adb31"
                ++ "0e3be8250c46f06dceea3a7fa1348057e2f6556ad6b1318a024a838f21af1fde"
                ++ "048977eb48f59ffd4924ca1c60902e52f0a089bc76897040e082f93776384864"
                ++ "5e0705")) =
  Bytes.of_hex ("f3ffc7703f9400e52a7dfb4b3d3305d98e993b9f48681273c29650ba32fc76ce"
             ++ "48332ea7164d96a4476fb8c531a1186ac0dfc17c98dce87b4da7f011ec48c972"
             ++ "71d2c20f9b928fe2270d6fb863d51738b48eeee314a7cc8ab932164548e526ae"
             ++ "90224368517acfeabd6bb3732bc0e9da99832b61ca01b6de56244a9e88d5f9b3"
             ++ "7973f622a43d14a6599b1f654cb45a74e355a5").
Proof.
  vm_compute. reflexivity.
Qed.

Example encode_non_ascii :
  TextEncoder.encode [0x41; 0xE9; 0x20AC; 0xD83D; 0xDE00; 0xD800] =
  Bytes.of_hex "41c3a9e282acf09f9880efbfbd".
Proof.
  vm_compute. reflexivity.
Qed.

(** ** The heap *)

Lemma length_modify {A} (i : nat) (f : A -> A) (l : list A) :
  length (modify i f l) = length l.
Proof.
  revert i. induction l as [| a l IH]; intros [| i]; simpl; auto.
Qed.

Lemma modify_app_plus {A} (k : nat) (f : A -> A) (h l : list A) :
  modify (length h + k) f (h ++ l) = h ++ modify k f l.
Proof.
  induction h as [| a h IH]; simpl; [reflexivity |].
  rewrite IH. reflexivity.
Qed.

Lemma nth_app_old {A} (b : nat) (h l : list A) (d : A) :
  (b < length h)%nat -> nth b (h ++ l) d = nth b h d.
Proof.
  intros H. apply app_nth1. exact H.
Qed.

Lemma unchanged_refl (w : World) : unchanged w w.
Proof.
  split; auto.
Qed.

Lemma unchanged_trans (w1 w2 w3 : World) :
  unchanged w1 w2 -> unchanged w2 w3 -> unchanged w1 w3.
Proof.
  intros [L1 H1] [L2 H2]. split; [lia |].
  intros b Hb. rewrite H2 by lia. apply H1. exact Hb.
Qed.

Lemma unchanged_app (h l : list bytes) (e e' : nat -> byte) :
  unchanged (MkWorld h e) (MkWorld (h ++ l) e').
Proof.
  split; simpl.
  - rewrite length_app. lia.
  - intros b Hb. apply nth_app_old. exact Hb.
Qed.

Lemma contents_unchanged (w w' : World) (a : Uint8Array) :
  unchanged w w' -> (buffer a < length (heap w))%nat ->
  contents w' a = contents w a.
Proof.
  intros [_ H] Hb. unfold contents. rewrite H by exact Hb. reflexivity.
Qed.

Lemma length_contents (w : World) (a : Uint8Array) :
  valid w a -> length (contents w a) = byteLength a.
Proof.
  intros [_ H]. unfold contents. rewrite length_firstn, length_skipn. lia.
Qed.

(** An array that was just allocated shows the bytes it was given. *)
Lemma contents_new (h l : list bytes) (e : nat -> byte) (k : nat) (bs : bytes) :
  nth k l [] = bs ->
  contents (MkWorld (h ++ l) e) (View (length h + k) 0 (length bs)) = bs.
Proof.
  intros H. unfold contents. simpl.
  rewrite app_nth2_plus, H. apply firstn_all.
Qed.

(** [subarray] and [slice] show the same range of the contents. *)
Lemma contents_subarray (w : World) (a : Uint8Array) (b e : nat) :
  contents w (subarray a b e) = Bytes.range b e (contents w a).
Proof.
  unfold contents, subarray, Bytes.range. simpl.
  set (buf := nth (buffer a) (heap w) []).
  rewrite skipn_firstn_comm, firstn_firstn, skipn_skipn.
  destruct (Nat.le_gt_cases b (byteLength a)) as [H | H].
  - rewrite (Nat.min_l b) by exact H.
    f_equal; [lia | f_equal; lia].
  - rewrite (Nat.min_r b) by lia.
    replace (Nat.min e (byteLength a) - byteLength a)%nat with 0%nat by lia.
    replace (Nat.min (e - b) (byteLength a - b)) with 0%nat by lia.
    reflexivity.
Qed.

Lemma overwrite_head (x : byte) (p : bytes) :
  overwrite 1 p (overwrite 0 [x] (Bytes.zeros (length p + 1))) = x :: p.
Proof.
  unfold overwrite, Bytes.zeros. rewrite Nat.add_1_r. simpl.
  rewrite skipn_all2 by (rewrite repeat_length; lia).
  rewrite app_nil_r. reflexivity.
Qed.

Lemma map_nth_seq {A} (l : list A) (d : A) :
  map (fun i => nth i l d) (seq 0 (length l)) = l.
Proof.
  induction l as [| a l IH]; simpl; [reflexivity |].
  rewrite <- seq_shift, map_map. simpl. rewrite IH. reflexivity.
Qed.

Lemma nth_app_here {A} (h l : list A) (d : A) :
  nth (length h) (h ++ l) d = nth 0 l d.
Proof.
  rewrite <- (Nat.add_0_r (length h)). apply app_nth2_plus.
Qed.

Lemma modify_app_here {A} (f : A -> A) (h l : list A) :
  modify (length h) f (h ++ l) = h ++ modify 0 f l.
Proof.
  rewrite <- (Nat.add_0_r (length h)) at 1. apply modify_app_plus.
Qed.

Lemma contents_here (h l : list bytes) (e : nat -> byte) (bs : bytes) :
  nth 0 l [] = bs ->
  contents (MkWorld (h ++ l) e) (View (length h) 0 (length bs)) = bs.
Proof.
  intros H. rewrite <- (Nat.add_0_r (length h)). apply contents_new. exact H.
Qed.

Lemma contents_old (h l : list bytes) (e e' : nat -> byte) (a : Uint8Array) :
  (buffer a < length h)%nat ->
  contents (MkWorld (h ++ l) e') a = contents (MkWorld h e) a.
Proof.
  intros H. apply contents_unchanged; [apply unchanged_app | exact H].
Qed.

Lemma overwrite_head_S (x : byte) (p : bytes) :
  overwrite 1 p (overwrite 0 [x] (repeat x00 (S (length p)))) = x :: p.
Proof.
  rewrite <- (overwrite_head x p). unfold Bytes.zeros. rewrite Nat.add_1_r. reflexivity.
Qed.

(** The heap of a run is kept in the form [h ++ [b1; ...; bn]]: the heap
    at the start, then the buffers of the run. *)
Ltac heap_norm :=
  repeat first
    [ rewrite <- app_assoc
    | rewrite length_app
    | rewrite modify_app_plus
    | rewrite modify_app_here
    | rewrite <- Nat.add_assoc
    | progress cbn [app length modify heap entropy buffer byteOffset byteLength
                    Nat.add fst snd] ].

Ltac run_ops :=
  unfold bind, TextEncoder_encode, new_Uint8Array, alloc, store, set, slice, read,
    randomBytes, NobleHashes.hmac, NobleHashes.toBytes, ret, throw, bind, alloc, read,
    Bytes.zeros;
  cbn [heap entropy byteLength buffer byteOffset fst snd].

(** ** slip21Derive *)

Lemma for_loop_rule {A} (body : nat -> A -> Js A) (P : nat -> A -> World -> Prop) :
  (forall i a w, P i a w -> exists a' w', body i a w = (Normal a', w') /\ P (S i) a' w') ->
  forall count from a w,
    P from a w ->
    exists a' w', for_loop count from body a w = (Normal a', w') /\ P (from + count)%nat a' w'.
Proof.
  intros Step. induction count as [| c IH]; intros from a w H.
  - exists a, w. rewrite Nat.add_0_r. split; [reflexivity | exact H].
  - destruct (Step _ _ _ H) as (a1 & w1 & E1 & H1).
    destruct (IH _ _ _ H1) as (a2 & w2 & E2 & H2).
    exists a2, w2. split.
    + simpl. unfold bind. rewrite E1. exact E2.
    + replace (from + S c)%nat with (S from + c)%nat by lia. exact H2.
Qed.

(** One turn of the loop: a label is encoded, prefixed with a zero byte, and
    authenticated under the lower half of [m]. *)
Lemma slip21_step (label : JsString) (m : Uint8Array) (w : World) :
  valid w m ->
  exists m' w',
    (p <- TextEncoder_encode label ;;
     e <- new_Uint8Array (byteLength p + 1) ;;
     store e 0 0 ;;;
     set e p 1 ;;;
     k <- slice m 0 32 ;;
     NobleHashes.hmac NobleHashes.sha512 (NobleHashes.Arr k) (NobleHashes.Arr e)) w
    = (Normal m', w') /\
    unchanged w w' /\ entropy w' = entropy w /\ valid w' m' /\ fresh w m' /\
    contents w' m' = Spec.child (contents w m) label.
Proof.
  intros [Hb _]. destruct w as [h r]. simpl in Hb.
  set (P := TextEncoder.encode label).
  run_ops. fold P.
  rewrite !repeat_length, !Nat.add_1_r.
  cbn [Nat.ltb Nat.leb Nat.add]. rewrite Nat.leb_refl.
  heap_norm.
  rewrite (contents_here h _ r P) by reflexivity.
  change (Bytes.of_Z 0) with x00.
  rewrite overwrite_head_S.
  rewrite contents_subarray, (contents_old h _ r r m) by exact Hb.
  set (K := Bytes.range 0 32 (contents (MkWorld h r) m)).
  rewrite (contents_new h _ r 2 K) by reflexivity.
  change (S (length P)) with (length (x00 :: P)).
  rewrite (contents_new h _ r 1 (x00 :: P)) by reflexivity.
  change (Hmac.hmac _ _ K (x00 :: P)) with (Spec.child (contents (MkWorld h r) m) label).
  set (OUT := Spec.child _ _).
  heap_norm. eexists. eexists. split; [reflexivity |].
  split; [apply unchanged_app |].
  split; [reflexivity |].
  split.
  { split; simpl.
    - rewrite length_app. simpl. lia.
    - rewrite app_nth2_plus. simpl. lia. }
  split; [unfold fresh; simpl; lia |].
  apply (contents_new h _ r 3 OUT). reflexivity.
Qed.

Lemma length_derive_chain (seed : bytes) (path : list JsString) :
  length (fold_left Spec.child path (Spec.root seed)) = 64%nat.
Proof.
  destruct (rev path) as [| l p] eqn:E.
  - apply (f_equal (@rev _)) in E. rewrite rev_involutive in E. subst path.
    apply length_hmac_sha512.
  - apply (f_equal (@rev _)) in E. rewrite rev_involutive in E. subst path.
    simpl. rewrite fold_left_app. apply length_hmac_sha512.
Qed.

(** The run of [slip21Derive]: it succeeds, the result is a new 32-byte
    array holding [Spec.derive] of the seed's bytes, nothing that was in the
    heap is written, nothing is drawn from the random source. *)
Lemma slip21Derive_run (seed : Uint8Array) (path : list JsString) (w : World) :
  exists out w',
    slip21Derive seed path w = (Success out, w') /\
    unchanged w w' /\ entropy w' = entropy w /\
    valid w' out /\ byteLength out = 32%nat /\ fresh w out /\
    contents w' out = Spec.derive (contents w seed) path.
Proof.
  unfold slip21Derive, Effect.sync.
  set (body := fun (i : nat) (m : Uint8Array) => _).
  destruct w as [h r].
  set (w0 := MkWorld h r).
  set (ROOT := Spec.root (contents w0 seed)).
  set (P := fun (i : nat) (m : Uint8Array) (w1 : World) =>
              unchanged w0 w1 /\ entropy w1 = r /\ valid w1 m /\
              contents w1 m =
                fold_left Spec.child (map (fun j => nth j path []) (seq 0 i)) ROOT).
  assert (Step : forall i a w1, P i a w1 ->
                   exists a' w', body i a w1 = (Normal a', w') /\ P (S i) a' w').
  { intros i a w1 (U & E & V & C).
    destruct (slip21_step (nth i path []) a w1 V) as (m' & w' & R & U' & E' & V' & _ & C').
    exists m', w'. split; [exact R |].
    split; [eapply unchanged_trans; eassumption |].
    split; [congruence |].
    split; [exact V' |].
    rewrite seq_S, map_app, fold_left_app, C', C. reflexivity. }
  assert (Init : P 0%nat (View (length h) 0 (length ROOT)) (MkWorld (h ++ [ROOT]) r)).
  { split; [apply unchanged_app |].
    split; [reflexivity |].
    split.
    - split; simpl; [rewrite length_app; simpl; lia | rewrite nth_app_here; simpl; lia].
    - apply (contents_here h [ROOT] r ROOT). reflexivity. }
  destruct (for_loop_rule body P Step (length path) 0%nat _ _ Init)
    as (m & w1 & R & U & E & V & C).
  simpl in C. rewrite map_nth_seq in C.
  unfold bind at 1. unfold NobleHashes.hmac at 1.
  run_ops.
  change (Hmac.hmac _ _ _ (contents w0 seed)) with ROOT.
  change (heap w0) with h. change (entropy w0) with r.
  rewrite R. destruct w1 as [h1 r1]. run_ops.
  eexists. eexists. split; [reflexivity |].
  split; [eapply unchanged_trans; [exact U | apply unchanged_app] |].
  split; [exact E |].
  rewrite contents_subarray, C.
  assert (L : length (Bytes.range 32 64 (fold_left Spec.child path ROOT)) = 32%nat).
  { rewrite length_range by (unfold ROOT; rewrite length_derive_chain; lia). reflexivity. }
  split.
  { split; simpl.
    - rewrite length_app. simpl. lia.
    - rewrite nth_app_here. simpl. lia. }
  split; [exact L |].
  split; [unfold fresh; simpl; destruct U as [U _]; simpl in U; lia |].
  apply contents_here. reflexivity.
Qed.

(** C1.  For every seed and every path, [slip21Derive] succeeds and returns
    a 32-byte array that holds bytes 32 to 64 of [m], where [m] starts as
    HMAC-SHA512 of the seed under the key ["Symmetric key seed"] and becomes,
    label after label in path order, HMAC-SHA512 of a zero byte and the
    label's UTF-8 encoding under the key [m[0:32]]; for the empty path it is
    the upper half of the first [m]. *)
Theorem slip21Derive_computes (seed : Uint8Array) (path : list JsString) (w : World) :
  exists out w',
    slip21Derive seed path w = (Success out, w') /\
    contents w' out = Spec.derive (contents w seed) path /\
    length (contents w' out) = 32%nat /\
    (path = [] -> contents w' out = Bytes.range 32 64 (Spec.root (contents w seed))).
Proof.
  destruct (slip21Derive_run seed path w) as (out & w' & R & _ & _ & V & L & _ & C).
  exists out, w'. split; [exact R |]. split; [exact C |].
  split; [rewrite length_contents by exact V; exact L |].
  intros ->. exact C.
Qed.

(** C9.  Two calls of [slip21Derive] on seeds with the same bytes and on the
    same path return arrays with the same 32 bytes, whatever the two heaps and
    the two random sources are, and neither call draws from its random
    source. *)
Theorem slip21Derive_deterministic (seed1 seed2 : Uint8Array) (path : list JsString)
  (w1 w2 : World) :
  contents w1 seed1 = contents w2 seed2 ->
  exists out1 w1' out2 w2',
    slip21Derive seed1 path w1 = (Success out1, w1') /\
    slip21Derive seed2 path w2 = (Success out2, w2') /\
    contents w1' out1 = contents w2' out2 /\
    length (contents w1' out1) = 32%nat /\
    entropy w1' = entropy w1 /\ entropy w2' = entropy w2.
Proof.
  intros E.
  destruct (slip21Derive_run seed1 path w1) as (o1 & w1' & R1 & _ & E1 & V1 & L1 & _ & C1).
  destruct (slip21Derive_run seed2 path w2) as (o2 & w2' & R2 & _ & E2 & _ & _ & _ & C2).
  exists o1, w1', o2, w2'.
  split; [exact R1 |]. split; [exact R2 |].
  split; [rewrite C1, C2, E; reflexivity |].
  split; [rewrite length_contents by exact V1; exact L1 |].
  split; assumption.
Qed.

(** Two runs on the seed of SLIP-0021, held at two places of two heaps. *)
Lemma slip21Derive_deterministic_witness :
  contents Sample.world Sample.seedArray = contents Sample.world2 Sample.seedArray2 /\
  exists out1 w1' out2 w2',
    slip21Derive Sample.seedArray [str "SLIP-0021"] Sample.world = (Success out1, w1') /\
    slip21Derive Sample.seedArray2 [str "SLIP-0021"] Sample.world2 = (Success out2, w2') /\
    contents w1' out1 = contents w2' out2 /\
    length (contents w1' out1) = 32%nat /\
    entropy w1' = entropy Sample.world /\ entropy w2' = entropy Sample.world2.
Proof.
  split; [reflexivity |].
  apply (slip21Derive_deterministic Sample.seedArray Sample.seedArray2
           [str "SLIP-0021"] Sample.world Sample.world2).
  reflexivity.
Defined.

(** C8, as the code has it.  On the seed of the example of SLIP-0021 and the
    path [["SLIP-0021"]], [slip21Derive] returns the key that the standard
    publishes for that node. *)
Theorem slip21Derive_known_vector (seed : Uint8Array) (w : World) :
  contents w seed = Spec.slip21_seed ->
  exists out w',
    slip21Derive seed [str "SLIP-0021"] w = (Success out, w') /\
    contents w' out = Spec.slip21_key.
Proof.
  intros E.
  destruct (slip21Derive_run seed [str "SLIP-0021"] w) as (out & w' & R & _ & _ & _ & _ & _ & C).
  exists out, w'. split; [exact R |].
  rewrite C, E. vm_compute. reflexivity.
Qed.

(** The vector on the sample heap. *)
Lemma slip21Derive_known_vector_witness :
  contents Sample.world Sample.seedArray = Spec.slip21_seed /\
  exists out w',
    slip21Derive Sample.seedArray [str "SLIP-0021"] Sample.world = (Success out, w') /\
    contents w' out = Spec.slip21_key.
Proof.
  split; [reflexivity |].
  apply (slip21Derive_known_vector Sample.seedArray Sample.world). reflexivity.
Defined.

(** C8, as stated, fails: on a seed of 64 zero bytes, and on its first 32
    and its first 16 bytes, the result for the path [["SLIP-0021"]] is not
    the key that the standard publishes. *)
Lemma slip21Derive_zero_seed_differs :
  contents Sample.world Sample.zeroSeedArray = Bytes.zeros 64 /\
  (exists out w',
     slip21Derive Sample.zeroSeedArray [str "SLIP-0021"] Sample.world = (Success out, w') /\
     contents w' out <> Spec.slip21_key) /\
  (exists out w',
     slip21Derive (subarray Sample.zeroSeedArray 0 32) [str "SLIP-0021"] Sample.world
       = (Success out, w') /\
     contents w' out <> Spec.slip21_key) /\
  (exists out w',
     slip21Derive (subarray Sample.zeroSeedArray 0 16) [str "SLIP-0021"] Sample.world
       = (Success out, w') /\
     contents w' out <> Spec.slip21_key).
Proof.
  split; [reflexivity |].
  repeat split;
    match goal with
    | |- exists out w', slip21Derive ?seed ?path ?w = _ /\ _ =>
        destruct (slip21Derive_run seed path w) as (out & w' & R & _ & _ & _ & _ & _ & C);
        exists out, w'; split; [exact R |];
        rewrite C; vm_compute; discriminate
    end.
Qed.

Lemma contents_sized_here (h l : list bytes) (e : nat -> byte) (n : nat) (bs : bytes) :
  nth 0 l [] = bs -> n = length bs ->
  contents (MkWorld (h ++ l) e) (View (length h) 0 n) = bs.
Proof.
  intros H ->. apply contents_here. exact H.
Qed.

(** ** SecretBoxLive *)

(** The run of [seal] with a 32-byte key: 24 bytes are drawn, and the
    result is a new array holding them and the encryption under them. *)
Lemma seal_run (key plaintext : Uint8Array) (w : World) :
  valid w key -> valid w plaintext -> byteLength key = 32%nat ->
  exists out w',
    seal SecretBoxLive key plaintext w = (Success out, w') /\
    unchanged w w' /\ drawn 24 w w' /\ valid w' out /\ fresh w out /\
    contents w' out =
      Spec.sealed (contents w key) (map (entropy w) (seq 0 24)) (contents w plaintext).
Proof.
  intros [Hk _] [Hp _] L. destruct w as [h r]. simpl in Hk, Hp.
  set (N := map r (seq 0 24)).
  assert (LN : length N = 24%nat) by (unfold N; rewrite length_map, length_seq; reflexivity).
  unfold SecretBoxLive, seal, Effect.sync, NobleCiphers.secretbox, NobleCiphers.concatBytes,
    NobleCiphers.read_all.
  run_ops. fold N. rewrite L, LN.
  cbn [Nat.eqb negb XSalsa20Poly1305.keyLength XSalsa20Poly1305.nonceLength
       NobleCiphers.seal].
  run_ops.
  rewrite (contents_old h [N] r _ key) by exact Hk.
  rewrite (contents_old h [N] r _ plaintext) by exact Hp.
  rewrite (contents_sized_here h [N] _ 24 N) by (reflexivity || (symmetry; exact LN)).
  set (C := XSalsa20Poly1305.encrypt _ _ _).
  heap_norm.
  rewrite (contents_sized_here h _ _ 24 N) by (reflexivity || (symmetry; exact LN)).
  rewrite (contents_new h _ _ 1 C) by reflexivity.
  cbn [concat]. rewrite app_nil_r.
  eexists. eexists. split; [reflexivity |].
  split; [apply unchanged_app |].
  split; [intros i; reflexivity |].
  split.
  { split; simpl.
    - rewrite length_app. simpl. lia.
    - rewrite app_nth2_plus. simpl. lia. }
  split; [unfold fresh; simpl; lia |].
  apply (contents_new h _ _ 2 (N ++ C)). reflexivity.
Qed.

(** [open] unfolded: the two checks of [secretbox], then [decrypt] on the
    first 24 bytes and on the rest. *)
Lemma open_unfold (key ciphertext : Uint8Array) (w : World) :
  open SecretBoxLive key ciphertext w =
    if negb (byteLength key =? 32)%nat then (Die InvalidLength, w)
    else if negb (byteLength (subarray ciphertext 0 24) =? 24)%nat then (Die InvalidLength, w)
    else
      match XSalsa20Poly1305.decrypt (contents w key)
              (contents w (subarray ciphertext 0 24))
              (contents w (subarray_from ciphertext 24)) with
      | inl p => Effect.sync (alloc p) w
      | inr XSalsa20Poly1305.TooShort => (Die DataTooShort, w)
      | inr XSalsa20Poly1305.InvalidTag => (Die InvalidTagError, w)
      end.
Proof.
  unfold SecretBoxLive, open, Effect.sync, NobleCiphers.secretbox.
  unfold XSalsa20Poly1305.keyLength, XSalsa20Poly1305.nonceLength.
  destruct (negb (byteLength key =? 32)%nat); [reflexivity |].
  destruct (negb (byteLength (subarray ciphertext 0 24) =? 24)%nat); [reflexivity |].
  unfold bind at 1. unfold ret at 1. cbn [NobleCiphers.open].
  unfold bind, read.
  destruct (XSalsa20Poly1305.decrypt _ _ _) as [p | []]; reflexivity.
Qed.

(** The run of [open] with a 32-byte key: what [secretbox] and its [open]
    decide on the first 24 bytes and on the rest. *)
Lemma open_run (key ciphertext : Uint8Array) (w : World) :
  valid w ciphertext -> byteLength key = 32%nat ->
  let c := contents w ciphertext in
  if (length c <? 24)%nat then open SecretBoxLive key ciphertext w = (Die InvalidLength, w)
  else
    match XSalsa20Poly1305.decrypt (contents w key) (firstn 24 c) (skipn 24 c) with
    | inl p =>
        exists out w',
          open SecretBoxLive key ciphertext w = (Success out, w') /\
          unchanged w w' /\ entropy w' = entropy w /\ valid w' out /\ fresh w out /\
          contents w' out = p
    | inr XSalsa20Poly1305.TooShort =>
        open SecretBoxLive key ciphertext w = (Die DataTooShort, w)
    | inr XSalsa20Poly1305.InvalidTag =>
        open SecretBoxLive key ciphertext w = (Die InvalidTagError, w)
    end.
Proof.
  intros Vc L c.
  assert (Lc : length c = byteLength ciphertext) by (apply length_contents; exact Vc).
  assert (En : contents w (subarray ciphertext 0 24) = firstn 24 c).
  { rewrite contents_subarray. reflexivity. }
  assert (Eb : contents w (subarray_from ciphertext 24) = skipn 24 c).
  { unfold subarray_from. rewrite contents_subarray. unfold Bytes.range.
    apply firstn_all2. fold c. rewrite length_skipn. lia. }
  rewrite open_unfold, L, En, Eb. cbn [Nat.eqb negb subarray byteLength].
  rewrite Nat.min_0_l, Nat.sub_0_r, <- Lc.
  destruct (Nat.ltb_spec (length c) 24) as [Hlt | Hge].
  - rewrite Nat.min_r by lia.
    destruct (Nat.eqb_spec (length c) 24) as [E | _]; [lia | reflexivity].
  - rewrite Nat.min_l by lia. cbn [Nat.eqb negb].
    destruct (XSalsa20Poly1305.decrypt _ _ _) as [p | []]; try reflexivity.
    destruct w as [h r]. unfold Effect.sync, alloc. cbn [heap entropy].
    eexists. eexists. split; [reflexivity |].
    split; [apply unchanged_app |].
    split; [reflexivity |].
    split.
    { split; simpl.
      - rewrite length_app. simpl. lia.
      - rewrite nth_app_here. simpl. lia. }
    split; [unfold fresh; simpl; lia |].
    apply contents_here. reflexivity.
Qed.

Lemma firstn_prefix {A} (n : nat) (l r : list A) :
  length l = n -> firstn n (l ++ r) = l.
Proof.
  intros <-. rewrite firstn_app, Nat.sub_diag, firstn_all, firstn_O. apply app_nil_r.
Qed.

Lemma skipn_prefix {A} (n : nat) (l r : list A) :
  length l = n -> skipn n (l ++ r) = r.
Proof.
  intros <-. rewrite skipn_app, Nat.sub_diag, skipn_all, skipn_O. reflexivity.
Qed.

(** C2.  With a 32-byte key, whatever the random source delivers as the
    nonce, [seal] succeeds, [open] succeeds on the array that [seal] returned,
    and the array that [open] returns holds the bytes of the plaintext: the
    two effects run one after the other succeed with the plaintext. *)
Theorem open_seal_roundtrip (key plaintext : Uint8Array) (w : World) :
  valid w key -> valid w plaintext -> byteLength key = 32%nat ->
  exists sealed w1 opened w2,
    seal SecretBoxLive key plaintext w = (Success sealed, w1) /\
    open SecretBoxLive key sealed w1 = (Success opened, w2) /\
    Effect.flatMap (seal SecretBoxLive key plaintext) (open SecretBoxLive key) w
      = (Success opened, w2) /\
    contents w2 opened = contents w plaintext.
Proof.
  intros Vk Vp L.
  destruct (seal_run key plaintext w Vk Vp L) as (ct & w1 & R1 & U1 & _ & V1 & _ & C1).
  pose proof (open_run key ct w1 V1 L) as R2. cbv zeta in R2.
  rewrite C1 in R2. unfold Spec.sealed in R2.
  set (N := map (entropy w) (seq 0 24)) in *.
  assert (LN : length N = 24%nat) by (unfold N; rewrite length_map, length_seq; reflexivity).
  rewrite length_app, LN in R2.
  destruct (Nat.ltb_spec (24 + length (XSalsa20Poly1305.encrypt (contents w key) N
                                         (contents w plaintext))) 24) as [H | _]; [lia |].
  rewrite (firstn_prefix 24 N _ LN), (skipn_prefix 24 N _ LN) in R2.
  rewrite (contents_unchanged w w1 key U1 (proj1 Vk)) in R2.
  rewrite decrypt_encrypt in R2.
  destruct R2 as (out & w2 & R2 & _ & _ & _ & _ & C2).
  exists ct, w1, out, w2.
  split; [exact R1 |]. split; [exact R2 |].
  split; [unfold Effect.flatMap; rewrite R1; exact R2 | exact C2].
Qed.

(** The round trip of the sample message under the sample key. *)
Lemma open_seal_roundtrip_witness :
  (valid Sample.world Sample.keyArray /\ valid Sample.world Sample.messageArray /\
   byteLength Sample.keyArray = 32%nat) /\
  exists opened w2,
    Effect.flatMap (seal SecretBoxLive Sample.keyArray Sample.messageArray)
      (open SecretBoxLive Sample.keyArray) Sample.world = (Success opened, w2) /\
    contents w2 opened = Sample.message.
Proof.
  assert (Vk : valid Sample.world Sample.keyArray) by (split; vm_compute; lia).
  assert (Vp : valid Sample.world Sample.messageArray) by (split; vm_compute; lia).
  split; [split; [exact Vk | split; [exact Vp | reflexivity]] |].
  destruct (open_seal_roundtrip Sample.keyArray Sample.messageArray Sample.world Vk Vp eq_refl)
    as (ct & w1 & out & w2 & _ & _ & R & C).
  exists out, w2. split; [exact R | exact C].
Defined.

(** C5.  With a 32-byte key, [seal] returns the 24 bytes that it draws from
    the random source followed by the XSalsa20-Poly1305 encryption of the
    plaintext under the key and these bytes, which is 16 bytes longer than the
    plaintext: the output has 40 bytes more than the plaintext, and its first
    24 bytes are the nonce. *)
Theorem seal_output (key plaintext : Uint8Array) (w : World) :
  valid w key -> valid w plaintext -> byteLength key = 32%nat ->
  let nonce := map (entropy w) (seq 0 24) in
  let c := XSalsa20Poly1305.encrypt (contents w key) nonce (contents w plaintext) in
  exists out w',
    seal SecretBoxLive key plaintext w = (Success out, w') /\
    drawn 24 w w' /\
    contents w' out = nonce ++ c /\
    length nonce = 24%nat /\
    length c = (length (contents w plaintext) + 16)%nat /\
    length (contents w' out) = (length (contents w plaintext) + 40)%nat /\
    (40 <= length (contents w' out))%nat /\
    firstn 24 (contents w' out) = nonce.
Proof.
  intros Vk Vp L nonce c.
  destruct (seal_run key plaintext w Vk Vp L) as (out & w' & R & _ & D & _ & _ & C).
  assert (LN : length nonce = 24%nat)
    by (unfold nonce; rewrite length_map, length_seq; reflexivity).
  assert (LC : length c = (length (contents w plaintext) + 16)%nat)
    by apply length_encrypt.
  exists out, w'. fold nonce in C. unfold Spec.sealed in C. fold c in C.
  split; [exact R |]. split; [exact D |]. split; [exact C |].
  split; [exact LN |]. split; [exact LC |].
  rewrite C, length_app, LN, LC.
  split; [lia |]. split; [lia |].
  apply firstn_prefix. exact LN.
Qed.

(** The sample message sealed: 11 + 40 bytes, the first 24 from the sample source. *)
Lemma seal_output_witness :
  (valid Sample.world Sample.keyArray /\ valid Sample.world Sample.messageArray /\
   byteLength Sample.keyArray = 32%nat) /\
  exists out w',
    seal SecretBoxLive Sample.keyArray Sample.messageArray Sample.world = (Success out, w') /\
    length (contents w' out) = 51%nat /\
    firstn 24 (contents w' out) = map Sample.source (seq 0 24).
Proof.
  assert (Vk : valid Sample.world Sample.keyArray) by (split; vm_compute; lia).
  assert (Vp : valid Sample.world Sample.messageArray) by (split; vm_compute; lia).
  split; [split; [exact Vk | split; [exact Vp | reflexivity]] |].
  destruct (seal_output Sample.keyArray Sample.messageArray Sample.world Vk Vp eq_refl)
    as (out & w' & R & _ & _ & _ & _ & L & _ & F).
  exists out, w'. split; [exact R |]. split; [exact L | exact F].
Defined.

(** C3.  With a 32-byte key, [open] fails at once on fewer than 40 bytes;
    on 40 bytes or more it takes the first 24 as the nonce and the rest as
    the body, and when the tag of the body does not verify it fails with the
    defect [InvalidTagError], which is none of the other defects; when it
    succeeds, the tag has verified and the result is the decryption of the
    body, so that the input is the sealing of the result and no other bytes
    are ever returned. *)
Theorem open_fails_or_authentic (key ciphertext : Uint8Array) (w : World) :
  valid w key -> valid w ciphertext -> byteLength key = 32%nat ->
  let c := contents w ciphertext in
  let k := contents w key in
  let nonce := firstn 24 c in
  let body := skipn 24 c in
  let verifies :=
    firstn 16 body = Poly1305.poly1305 (skipn 16 body) (XSalsa20Poly1305.authKey k nonce) in
  ((length c < 40)%nat ->
     open SecretBoxLive key ciphertext w = (Die InvalidLength, w) \/
     open SecretBoxLive key ciphertext w = (Die DataTooShort, w)) /\
  ((40 <= length c)%nat -> ~ verifies ->
     open SecretBoxLive key ciphertext w = (Die InvalidTagError, w)) /\
  (InvalidTagError <> InvalidLength /\ InvalidTagError <> DataTooShort /\
   InvalidTagError <> RangeError) /\
  (forall out w',
     open SecretBoxLive key ciphertext w = (Success out, w') ->
     (40 <= length c)%nat /\ verifies /\
     contents w' out = XSalsa20Poly1305.crypt k nonce (skipn 16 body) /\
     c = Spec.sealed k nonce (contents w' out)).
Proof.
  intros _ Vc L c k nonce body verifies.
  pose proof (open_run key ciphertext w Vc L) as R. cbv zeta in R.
  fold c k in R. fold nonce body in R.
  assert (Lb : length body = (length c - 24)%nat) by (unfold body; apply length_skipn).
  split; [| split; [| split]].
  - intros H. destruct (Nat.ltb_spec (length c) 24) as [H24 | H24].
    + left. exact R.
    + right. rewrite decrypt_short in R by lia. exact R.
  - intros H NV. destruct (Nat.ltb_spec (length c) 24) as [H24 | H24]; [lia |].
    rewrite decrypt_bad_tag in R by (exact NV || lia). exact R.
  - repeat split; discriminate.
  - intros out w' O. destruct (Nat.ltb_spec (length c) 24) as [H24 | H24];
      [rewrite R in O; discriminate |].
    destruct (XSalsa20Poly1305.decrypt k nonce body) as [p | []] eqn:D;
      [| rewrite R in O; discriminate | rewrite R in O; discriminate].
    destruct R as (out0 & w0 & R & _ & _ & _ & _ & C).
    rewrite R in O. injection O as <- <-.
    destruct (decrypt_inl _ _ _ _ D) as (Ec & Ev & Ep).
    assert (16 <= length body)%nat.
    { destruct (Nat.lt_ge_cases (length body) 16) as [S | S]; [| exact S].
      rewrite decrypt_short in D by exact S. discriminate. }
    split; [lia |]. split; [exact Ev |].
    split; [rewrite C; exact Ep |].
    unfold Spec.sealed. rewrite C, <- Ec.
    symmetry. apply firstn_skipn.
Qed.

(** Sixty-four zero bytes are not a sealed box under the sample key. *)
Lemma open_fails_or_authentic_witness :
  (valid Sample.world Sample.keyArray /\ valid Sample.world Sample.zeroSeedArray /\
   byteLength Sample.keyArray = 32%nat) /\
  open SecretBoxLive Sample.keyArray Sample.zeroSeedArray Sample.world
    = (Die InvalidTagError, Sample.world).
Proof.
  assert (Vk : valid Sample.world Sample.keyArray) by (split; vm_compute; lia).
  assert (Vc : valid Sample.world Sample.zeroSeedArray) by (split; vm_compute; lia).
  split; [split; [exact Vk | split; [exact Vc | reflexivity]] |].
  destruct (open_fails_or_authentic Sample.keyArray Sample.zeroSeedArray Sample.world
              Vk Vc eq_refl) as (_ & T & _).
  apply T.
  - vm_compute. lia.
  - vm_compute. discriminate.
Defined.

Lemma seal_frame (key plaintext : Uint8Array) (w : World) :
  unchanged w (snd (seal SecretBoxLive key plaintext w)) /\
  forall out, fst (seal SecretBoxLive key plaintext w) = Success out -> fresh w out.
Proof.
  destruct w as [h r].
  unfold SecretBoxLive, seal, Effect.sync, NobleCiphers.secretbox, NobleCiphers.concatBytes,
    NobleCiphers.read_all.
  run_ops.
  destruct (negb (byteLength key =? XSalsa20Poly1305.keyLength)%nat).
  { cbn [fst snd]. split; [apply unchanged_app | discriminate]. }
  destruct (negb (_ =? XSalsa20Poly1305.nonceLength)%nat).
  { cbn [fst snd]. split; [apply unchanged_app | discriminate]. }
  cbn [NobleCiphers.seal]. run_ops. heap_norm.
  split; [apply unchanged_app |].
  intros out [= <-]. unfold fresh. simpl. lia.
Qed.

Lemma open_frame (key ciphertext : Uint8Array) (w : World) :
  unchanged w (snd (open SecretBoxLive key ciphertext w)) /\
  entropy (snd (open SecretBoxLive key ciphertext w)) = entropy w /\
  forall out, fst (open SecretBoxLive key ciphertext w) = Success out -> fresh w out.
Proof.
  rewrite open_unfold. destruct w as [h r].
  destruct (negb (byteLength key =? 32)%nat).
  { cbn. split; [apply unchanged_refl | split; [reflexivity | discriminate]]. }
  destruct (negb (_ =? 24)%nat).
  { cbn. split; [apply unchanged_refl | split; [reflexivity | discriminate]]. }
  destruct (XSalsa20Poly1305.decrypt _ _ _) as [p | []].
  - unfold Effect.sync, alloc. cbn [fst snd heap entropy].
    split; [apply unchanged_app | split; [reflexivity |]].
    intros out [= <-]. unfold fresh. simpl. lia.
  - cbn. split; [apply unchanged_refl | split; [reflexivity | discriminate]].
  - cbn. split; [apply unchanged_refl | split; [reflexivity | discriminate]].
Qed.

(** C10.  [slip21Derive], [seal] and [open] write no buffer that was in the
    heap when they were called: the arrays that they are given, and every
    other array, hold afterwards the bytes they held before, whether the call
    succeeds or fails, and an array that is returned lies in a buffer
    allocated by the call. *)
Theorem inputs_left_unchanged (w : World) :
  (forall seed path,
     let r := slip21Derive seed path w in
     unchanged w (snd r) /\
     (forall a, valid w a -> contents (snd r) a = contents w a) /\
     (forall out, fst r = Success out -> fresh w out)) /\
  (forall key plaintext,
     let r := seal SecretBoxLive key plaintext w in
     unchanged w (snd r) /\
     (forall a, valid w a -> contents (snd r) a = contents w a) /\
     (forall out, fst r = Success out -> fresh w out)) /\
  (forall key ciphertext,
     let r := open SecretBoxLive key ciphertext w in
     unchanged w (snd r) /\
     (forall a, valid w a -> contents (snd r) a = contents w a) /\
     (forall out, fst r = Success out -> fresh w out)).
Proof.
  split; [| split].
  - intros seed path r.
    destruct (slip21Derive_run seed path w) as (out & w' & R & U & _ & _ & _ & F & _).
    subst r. rewrite R. cbn [fst snd].
    split; [exact U |].
    split; [intros a [Ha _]; apply contents_unchanged; assumption |].
    intros o [= <-]. exact F.
  - intros key plaintext r.
    destruct (seal_frame key plaintext w) as (U & F). fold r in U, F.
    split; [exact U |].
    split; [intros a [Ha _]; apply contents_unchanged; assumption | exact F].
  - intros key ciphertext r.
    destruct (open_frame key ciphertext w) as (U & _ & F). fold r in U, F.
    split; [exact U |].
    split; [intros a [Ha _]; apply contents_unchanged; assumption | exact F].
Qed.

(** ** NodeId *)

Lemma eat_Some (cl : list RegExp.Atom) (n : nat) (s s' : JsString) :
  RegExp.eat cl n s = Some s' <->
  exists pre, s = pre ++ s' /\ length pre = n /\
              Forall (fun u => RegExp.class_matches cl u = true) pre.
Proof.
  revert s. induction n as [| n IH]; intros s; simpl.
  - split.
    + intros [= ->]. exists []. repeat split. constructor.
    + intros ([| u pre] & -> & L & _); [reflexivity | discriminate].
  - destruct s as [| u s].
    + split; [discriminate |]. intros ([| v pre] & E & L & _); discriminate.
    + destruct (RegExp.class_matches cl u) eqn:M.
      * rewrite IH. split.
        -- intros (pre & -> & L & F). exists (u :: pre).
           repeat split; [simpl; lia | constructor; assumption].
        -- intros ([| v pre] & E & L & F); [discriminate |].
           injection E as <- ->. exists pre.
           repeat split; [simpl in L; lia | inversion F; assumption].
      * split; [discriminate |].
        intros ([| v pre] & E & L & F); [discriminate |].
        injection E as <- ->. inversion F; congruence.
Qed.

Lemma test_single (cl : list RegExp.Atom) (n : nat) (s : JsString) :
  RegExp.test [ {| RegExp.class := cl; RegExp.times := n |} ] s = true <->
  length s = n /\ Forall (fun u => RegExp.class_matches cl u = true) s.
Proof.
  simpl. destruct (RegExp.eat cl n s) as [s' |] eqn:E.
  - apply eat_Some in E. destruct E as (pre & -> & L & F).
    destruct s' as [| u s'].
    + rewrite app_nil_r. tauto.
    + split; [discriminate |]. intros [L' _]. rewrite length_app in L'. simpl in L'. lia.
  - split; [discriminate |]. intros [L F].
    assert (RegExp.eat cl n s = Some []) as E'
      by (apply eat_Some; exists s; rewrite app_nil_r; auto).
    congruence.
Qed.

Lemma word_or_dash_class (u : Z) :
  RegExp.class_matches [RegExp.Word; RegExp.Lit "-"] u = true <-> Spec.word_or_dash u.
Proof.
  unfold Spec.word_or_dash.
  cbv [RegExp.class_matches existsb RegExp.atom_matches RegExp.in_range RegExp.code].
  cbn [N_of_ascii Z.of_N].
  change (Z.of_N (N_of_ascii "a")) with 97. change (Z.of_N (N_of_ascii "z")) with 122.
  change (Z.of_N (N_of_ascii "A")) with 65. change (Z.of_N (N_of_ascii "Z")) with 90.
  change (Z.of_N (N_of_ascii "0")) with 48. change (Z.of_N (N_of_ascii "9")) with 57.
  change (Z.of_N (N_of_ascii "_")) with 95. change (Z.of_N (N_of_ascii "-")) with 45.
  rewrite !orb_true_iff, !andb_true_iff, !Z.leb_le, !Z.eqb_eq.
  intuition (try lia; try discriminate).
Qed.

Lemma hex_class (u : Z) :
  RegExp.class_matches [RegExp.Range "0" "9"; RegExp.Range "a" "f"] u = true <->
  48 <= u <= 57 \/ 97 <= u <= 102.
Proof.
  cbv [RegExp.class_matches existsb RegExp.atom_matches RegExp.in_range RegExp.code].
  change (Z.of_N (N_of_ascii "a")) with 97. change (Z.of_N (N_of_ascii "f")) with 102.
  change (Z.of_N (N_of_ascii "0")) with 48. change (Z.of_N (N_of_ascii "9")) with 57.
  rewrite !orb_true_iff, !andb_true_iff, !Z.leb_le.
  intuition (try lia; try discriminate).
Qed.

(** C4, as stated, fails: the schema [NodeId] accepts a string of sixteen
    characters that are not all hexadecimal digits. *)
Lemma NodeId_accepts_non_hex :
  S.is_ NodeId (str "Not-a-hex_NodeId") = true /\
  RegExp.test Spec.hex16 (str "Not-a-hex_NodeId") = false.
Proof.
  split; reflexivity.
Qed.

(** C4, as the code has it.  The strings that the schema [NodeId] accepts
    are the strings of sixteen characters that are each a letter, a digit, an
    underscore or a hyphen, that is [^[\w-]{16}$]; every string that matches
    [^[0-9a-f]{16}$] is among them. *)
Theorem NodeId_accepts_word_or_dash (s : JsString) :
  (S.is_ NodeId s = true <-> length s = 16%nat /\ Forall Spec.word_or_dash s) /\
  (RegExp.test Spec.hex16 s = true ->
     S.is_ NodeId s = true /\ Forall (fun u => 48 <= u <= 57 \/ 97 <= u <= 102) s).
Proof.
  assert (W : S.is_ NodeId s = true <-> length s = 16%nat /\ Forall Spec.word_or_dash s).
  { unfold S.is_, NodeId, S.brand, S.pattern, S.string, NodeId_pattern.
    rewrite andb_true_l, test_single.
    split; intros [L F]; (split; [exact L |]);
      eapply Forall_impl; try exact F; intros u; apply word_or_dash_class. }
  split; [exact W |].
  unfold Spec.hex16. rewrite test_single. intros [L F].
  assert (H : Forall (fun u => 48 <= u <= 57 \/ 97 <= u <= 102) s)
    by (eapply Forall_impl; try exact F; intros u; apply hex_class).
  split; [| exact H].
  apply W. split; [exact L |].
  eapply Forall_impl; try exact H. unfold Spec.word_or_dash. intros u; lia.
Qed.

(** The sixteen hexadecimal digits are accepted. *)
Lemma NodeId_accepts_word_or_dash_witness :
  RegExp.test Spec.hex16 (str "0123456789abcdef") = true /\
  S.is_ NodeId (str "0123456789abcdef") = true.
Proof.
  split; [reflexivity |].
  apply (NodeId_accepts_word_or_dash (str "0123456789abcdef")). reflexivity.
Defined.

Lemma char_at_hex (b : byte) :
  Nanoid.char_at (str "0123456789abcdef") (Z.land (Bytes.to_Z b) 15) = [Spec.hex_digit_of b].
Proof.
  destruct b; reflexivity.
Qed.

Lemma hex_digit_of_class (b : byte) :
  RegExp.class_matches [RegExp.Range "0" "9"; RegExp.Range "a" "f"] (Spec.hex_digit_of b)
  = true.
Proof.
  destruct b; reflexivity.
Qed.

Lemma hex_digit_of_word (b : byte) :
  RegExp.class_matches [RegExp.Word; RegExp.Lit "-"] (Spec.hex_digit_of b) = true.
Proof.
  destruct b; reflexivity.
Qed.

(** The inner loop of the generator on the hexadecimal alphabet: every byte
    gives a character, so the identifier is complete as soon as enough bytes
    have been read, from the last byte down. *)
Lemma take_hex (size : nat) (bs : bytes) (i : nat) (id : JsString) :
  (length id < size)%nat -> (size <= length id + i)%nat ->
  Nanoid.take (str "0123456789abcdef") 15 size bs i id =
    inl (id ++ map (fun j => Spec.hex_digit_of (nth (i - 1 - j) bs x00))
                   (seq 0 (size - length id))).
Proof.
  revert id. induction i as [| i IH]; intros id L B; [lia |].
  cbn [Nanoid.take]. unfold Nanoid.byte_at. rewrite char_at_hex.
  rewrite length_app. cbn [length].
  destruct (Nat.eqb_spec (length id + 1) size) as [E | E].
  - replace (size - length id)%nat with 1%nat by lia.
    cbn [seq map]. rewrite Nat.sub_0_r. cbn [Nat.sub]. rewrite Nat.sub_0_r. reflexivity.
  - rewrite IH by (rewrite length_app; simpl; lia).
    rewrite length_app. cbn [length].
    replace (size - length id)%nat with (S (size - (length id + 1)))%nat by lia.
    rewrite <- app_assoc. cbn [seq map app].
    rewrite <- seq_shift, map_map.
    cbn [Nat.sub]. rewrite !Nat.sub_0_r.
    do 3 f_equal. apply map_ext. intros x. do 2 f_equal. lia.
Qed.

(** C6.  Given one round of its loop, the generator of node identifiers
    succeeds; the identifier matches [^[0-9a-f]{16}$], and the schema [NodeId]
    accepts it; its sixteen characters are selected, one each, by the low four
    bits of sixteen different bytes drawn from the random source; and each of
    the sixteen digits is selected by exactly 16 of the 256 values of a
    byte. *)
Theorem nanoidAsNodeId_format (fuel : nat) (w : World) :
  (1 <= fuel)%nat ->
  exists id w',
    nanoidAsNodeId NanoIdGenerator_Live fuel w = (Success id, w') /\
    RegExp.test Spec.hex16 id = true /\
    S.is_ NodeId id = true /\
    id = map (fun j => Spec.hex_digit_of (entropy w (23 - j)%nat)) (seq 0 16) /\
    drawn 24 w w' /\
    (forall c, In c (str "0123456789abcdef") ->
       length (filter (fun b => Spec.hex_digit_of b =? c) Spec.all_bytes) = 16%nat).
Proof.
  intros F. destruct fuel as [| fuel]; [lia |]. destruct w as [h r].
  unfold nanoidAsNodeId, NanoIdGenerator_Live, Effect.sync, nanoidForNodeId,
    Nanoid.customAlphabet, Nanoid.customRandom.
  change (Nanoid.mask_of (str "0123456789abcdef")) with 15.
  change (Nanoid.step_of (str "0123456789abcdef") 16) with 24%nat.
  cbn [Nanoid.generate]. run_ops.
  rewrite (contents_here h _ _ (map r (seq 0 24))) by reflexivity.
  rewrite take_hex by (simpl; lia).
  cbn [map seq length Nat.sub nth app].
  eexists. eexists. split; [reflexivity |].
  split.
  { cbn [RegExp.test Spec.hex16 RegExp.eat RegExp.class RegExp.times].
    rewrite !hex_digit_of_class. reflexivity. }
  split.
  { unfold S.is_, NodeId, S.brand, S.pattern, S.string, NodeId_pattern.
    cbn [andb RegExp.test RegExp.eat RegExp.class RegExp.times].
    rewrite !hex_digit_of_word. reflexivity. }
  split; [reflexivity |].
  split; [intros i; reflexivity |].
  intros c H. cbn [str list_ascii_of_string map] in H.
  repeat (destruct H as [<- | H]; [vm_compute; reflexivity |]).
  destruct H.
Qed.

(** One identifier from the sample source. *)
Lemma nanoidAsNodeId_format_witness :
  (1 <= 1)%nat /\
  exists id w',
    nanoidAsNodeId NanoIdGenerator_Live 1 Sample.world = (Success id, w') /\
    RegExp.test Spec.hex16 id = true.
Proof.
  split; [lia |].
  destruct (nanoidAsNodeId_format 1 Sample.world (le_n 1)) as (id & w' & R & T & _).
  exists id, w'. split; [exact R | exact T].
Defined.

(** ** Tampering with a sealed box *)

Lemma to_of_Z (z : Z) : Bytes.to_Z (Bytes.of_Z z) = z mod 256.
Proof.
  unfold Bytes.of_Z, Bytes.to_Z.
  pose proof (Z.mod_pos_bound z 256 ltac:(lia)) as R.
  destruct (Byte.of_N _) eqn:F.
  - apply Byte.to_of_N in F.
    replace (Byte.to_N b) with (Z.to_N (z mod 256)) by congruence. lia.
  - exfalso. apply Byte.of_N_None_iff in F. lia.
Qed.

Lemma flipped_byte_differs (b : byte) (k : nat) :
  (k < 8)%nat -> Bytes.of_Z (Z.lxor (Bytes.to_Z b) (2 ^ Z.of_nat k)) <> b.
Proof.
  intros K E. apply (f_equal Bytes.to_Z) in E. rewrite to_of_Z in E.
  assert (M : 0 <= 2 ^ Z.of_nat k < 256).
  { split; [apply Z.pow_nonneg; lia |].
    change 256 with (2 ^ 8). apply Z.pow_lt_mono_r; lia. }
  rewrite Z.mod_small in E by (apply lxor_byte; [apply to_Z_range | exact M]).
  assert (Z : 2 ^ Z.of_nat k = 0).
  { transitivity (Z.lxor (Bytes.to_Z b) (Z.lxor (Bytes.to_Z b) (2 ^ Z.of_nat k))).
    - rewrite <- Z.lxor_assoc, Z.lxor_nilpotent, Z.lxor_0_l. reflexivity.
    - rewrite E. apply Z.lxor_nilpotent. }
  assert (0 < 2 ^ Z.of_nat k) by (apply Z.pow_pos_nonneg; lia). lia.
Qed.

Lemma modify_differs {A} (f : A -> A) (k : nat) (l : list A) :
  (forall a, f a <> a) -> (k < length l)%nat -> modify k f l <> l.
Proof.
  intros F. revert k. induction l as [| a l IH]; intros [| k] L; simpl in *; try lia.
  - intros E. injection E as E. exact (F a E).
  - intros E. injection E as E. apply (IH k); [lia | exact E].
Qed.

Lemma modify_app_l {A} (f : A -> A) (k : nat) (h l : list A) :
  (k < length h)%nat -> modify k f (h ++ l) = modify k f h ++ l.
Proof.
  revert k. induction h as [| a h IH]; intros [| k] L; simpl in *; try lia; auto.
  rewrite IH by lia. reflexivity.
Qed.

(** A bit flipped in the tag is always noticed: the body and the nonce are
    the same, so the tag that is computed is the one that was there before
    the flip. *)
Lemma tampered_tag_rejected (key tampered : Uint8Array) (w : World)
  (nonce plaintext : bytes) (i : nat) :
  valid w tampered -> byteLength key = 32%nat -> length nonce = 24%nat ->
  (24 * 8 <= i < 40 * 8)%nat ->
  contents w tampered = Spec.flip_bit i (Spec.sealed (contents w key) nonce plaintext) ->
  open SecretBoxLive key tampered w = (Die InvalidTagError, w).
Proof.
  intros V L LN I C.
  pose proof (open_run key tampered w V L) as R. cbv zeta in R.
  set (k := contents w key) in *.
  set (body := XSalsa20Poly1305.crypt k nonce plaintext).
  set (tag := Poly1305.poly1305 body (XSalsa20Poly1305.authKey k nonce)).
  assert (LT : length tag = 16%nat) by apply length_poly1305.
  assert (D : (i / 8 = 24 + (i / 8 - 24))%nat /\ (i / 8 - 24 < 16)%nat).
  { assert (24 <= i / 8)%nat by (apply Nat.div_le_lower_bound; lia).
    assert (i / 8 < 40)%nat by (apply Nat.Div0.div_lt_upper_bound; lia).
    lia. }
  destruct D as [D1 D2].
  set (f := fun b => Bytes.of_Z (Z.lxor (Bytes.to_Z b) (2 ^ Z.of_nat (i mod 8)))) in *.
  assert (E : contents w tampered = nonce ++ modify (i / 8 - 24) f tag ++ body).
  { rewrite C. unfold Spec.flip_bit, Spec.sealed, XSalsa20Poly1305.encrypt.
    fold f body tag. rewrite D1 at 1. rewrite <- LN at 1. rewrite modify_app_plus.
    f_equal. apply modify_app_l. lia. }
  rewrite E in R.
  rewrite (firstn_prefix 24 nonce _ LN), (skipn_prefix 24 nonce _ LN) in R.
  rewrite !length_app, length_modify, LN, LT in R.
  destruct (Nat.ltb_spec (24 + (16 + length body)) 24) as [H | _]; [lia |].
  rewrite decrypt_bad_tag in R; [exact R | rewrite length_app, length_modify; lia |].
  rewrite (firstn_prefix 16 _ _ (eq_trans (length_modify _ _ _) LT)).
  rewrite (skipn_prefix 16 _ _ (eq_trans (length_modify _ _ _) LT)).
  fold tag. apply modify_differs; [| lia].
  intros b. apply flipped_byte_differs. apply Nat.mod_upper_bound. lia.
Qed.

(** Why nothing more is proved about tampering: a one-time key whose first
    half is zero gives every message the same tag, so that the detection of
    a flip in the body or in the nonce rests on the key stream not delivering
    such keys, which is a property of XSalsa20 as a cipher and not of this
    code. *)
Lemma poly1305_degenerate_key (s msg1 msg2 : bytes) :
  Poly1305.poly1305 msg1 (Bytes.zeros 16 ++ s) = Poly1305.poly1305 msg2 (Bytes.zeros 16 ++ s).
Proof.
  unfold Poly1305.poly1305.
  assert (R : Poly1305.clamp (Bytes.le_decode (firstn 16 (Bytes.zeros 16 ++ s))) = 0)
    by reflexivity.
  rewrite R.
  assert (Z : forall l acc, fold_left (Poly1305.absorb 0) l acc = match l with [] => acc | _ => 0 end).
  { induction l as [| b l IH]; intros acc; [reflexivity |].
    simpl. rewrite IH. unfold Poly1305.absorb. rewrite Z.mul_0_r.
    destruct l; reflexivity. }
  rewrite !Z.
  destruct (Poly1305.blocks msg1), (Poly1305.blocks msg2); reflexivity.
Qed.

(** * Further properties of Crypto.ts *)

Lemma valid_unchanged (w w' : World) (a : Uint8Array) :
  unchanged w w' -> valid w a -> valid w' a.
Proof.
  intros [L H] [Hb Hl]. split; [lia |]. rewrite H by exact Hb. exact Hl.
Qed.

Lemma length_nonce (r : nat -> byte) : length (map r (seq 0 24)) = 24%nat.
Proof.
  rewrite length_map, length_seq. reflexivity.
Qed.

(** ** seal and open on the edges *)

(** A key that has not 32 bytes makes [seal] fail, but only after the nonce
    has been drawn: the 24 bytes are gone from the random source, and the
    heap has one buffer more. *)
Theorem seal_wrong_key_length (key plaintext : Uint8Array) (w : World) :
  byteLength key <> 32%nat ->
  exists w',
    seal SecretBoxLive key plaintext w = (Die InvalidLength, w') /\
    drawn 24 w w' /\ unchanged w w' /\
    heap w' = heap w ++ [map (entropy w) (seq 0 24)].
Proof.
  intros L. destruct w as [h r].
  unfold SecretBoxLive, seal, Effect.sync, NobleCiphers.secretbox.
  run_ops. unfold XSalsa20Poly1305.keyLength.
  destruct (Nat.eqb_spec (byteLength key) 32) as [E | _]; [contradiction |].
  cbn [negb]. eexists. split; [reflexivity |].
  split; [intros i; reflexivity |].
  split; [apply unchanged_app | reflexivity].
Qed.

(** The sample key without its last byte. *)
Lemma seal_wrong_key_length_witness :
  byteLength Box.shortKeyArray <> 32%nat /\
  exists w',
    seal SecretBoxLive Box.shortKeyArray Sample.messageArray Sample.world
      = (Die InvalidLength, w') /\
    entropy w' 0%nat = Sample.source 24.
Proof.
  assert (L : byteLength Box.shortKeyArray <> 32%nat) by (vm_compute; lia).
  split; [exact L |].
  destruct (seal_wrong_key_length Box.shortKeyArray Sample.messageArray Sample.world L)
    as (w' & R & D & _).
  exists w'. split; [exact R | apply D].
Defined.


Lemma open_sealed_run (key ciphertext : Uint8Array) (w : World)
  (nonce plaintext : bytes) :
  valid w ciphertext -> byteLength key = 32%nat -> length nonce = 24%nat ->
  contents w ciphertext = Spec.sealed (contents w key) nonce plaintext ->
  exists out w',
    open SecretBoxLive key ciphertext w = (Success out, w') /\
    contents w' out = plaintext /\ valid w' out /\ unchanged w w'.
Proof.
  intros V L LN C.
  pose proof (open_run key ciphertext w V L) as R. cbv zeta in R.
  rewrite C in R. unfold Spec.sealed in R.
  rewrite length_app, LN in R.
  destruct (Nat.ltb_spec (24 + length (XSalsa20Poly1305.encrypt (contents w key) nonce
                                         plaintext)) 24) as [H | _]; [lia |].
  rewrite (firstn_prefix 24 nonce _ LN), (skipn_prefix 24 nonce _ LN) in R.
  rewrite decrypt_encrypt in R.
  destruct R as (out & w' & R & U & _ & Vo & _ & Co).
  exists out, w'. split; [exact R |]. split; [exact Co |]. split; [exact Vo | exact U].
Qed.

(** The secret box takes what was sealed elsewhere: with a 32-byte key,
    [open] succeeds on any 24 bytes followed by the encryption of a plaintext
    under the key and these 24 bytes, and returns the plaintext. *)
Theorem open_accepts_sealed (key ciphertext : Uint8Array) (w : World)
  (nonce plaintext : bytes) :
  valid w ciphertext -> byteLength key = 32%nat -> length nonce = 24%nat ->
  contents w ciphertext = Spec.sealed (contents w key) nonce plaintext ->
  exists out w',
    open SecretBoxLive key ciphertext w = (Success out, w') /\
    contents w' out = plaintext /\ valid w' out /\ unchanged w w'.
Proof.
  exact (open_sealed_run key ciphertext w nonce plaintext).
Qed.

(** The box sealed under the nonce of the NaCl vector. *)
Lemma open_accepts_sealed_witness :
  (valid Box.world Box.boxArray /\ byteLength Sample.keyArray = 32%nat /\
   length Box.nonce = 24%nat /\
   contents Box.world Box.boxArray
     = Spec.sealed (contents Box.world Sample.keyArray) Box.nonce Sample.message) /\
  exists out w',
    open SecretBoxLive Sample.keyArray Box.boxArray Box.world = (Success out, w') /\
    contents w' out = Sample.message.
Proof.
  assert (V : valid Box.world Box.boxArray) by (split; vm_compute; lia).
  assert (C : contents Box.world Box.boxArray
              = Spec.sealed (contents Box.world Sample.keyArray) Box.nonce Sample.message)
    by (vm_compute; reflexivity).
  split; [split; [exact V | split; [reflexivity | split; [reflexivity | exact C]]] |].
  destruct (open_accepts_sealed Sample.keyArray Box.boxArray Box.world Box.nonce
              Sample.message V eq_refl eq_refl C) as (out & w' & R & Co & _).
  exists out, w'. split; [exact R | exact Co].
Defined.

(** What [open] returns is 40 bytes shorter than what it was given: 24
    bytes of nonce and 16 bytes of tag are taken off. *)
Theorem open_length (key ciphertext out : Uint8Array) (w w' : World) :
  valid w ciphertext -> byteLength key = 32%nat ->
  open SecretBoxLive key ciphertext w = (Success out, w') ->
  (40 <= byteLength ciphertext)%nat /\
  byteLength out = (byteLength ciphertext - 40)%nat /\
  length (contents w' out) = (byteLength ciphertext - 40)%nat.
Proof.
  intros V L O.
  pose proof (open_run key ciphertext w V L) as R. cbv zeta in R.
  pose proof (length_contents w ciphertext V) as Lc.
  set (c := contents w ciphertext) in *.
  destruct (Nat.ltb_spec (length c) 24) as [H24 | H24]; [rewrite R in O; discriminate |].
  destruct (XSalsa20Poly1305.decrypt (contents w key) (firstn 24 c) (skipn 24 c))
    as [p | []] eqn:D; [| rewrite R in O; discriminate | rewrite R in O; discriminate].
  destruct R as (out0 & w0 & R & _ & _ & Vo & _ & C).
  rewrite R in O. injection O as <- <-.
  assert (Lb : length (skipn 24 c) = (length c - 24)%nat) by apply length_skipn.
  assert (16 <= length (skipn 24 c))%nat.
  { destruct (Nat.lt_ge_cases (length (skipn 24 c)) 16) as [S | S]; [| exact S].
    rewrite decrypt_short in D by exact S. discriminate. }
  destruct (decrypt_inl _ _ _ _ D) as (_ & _ & Ep).
  assert (Lp : length p = (length c - 40)%nat).
  { rewrite Ep, length_crypt, length_skipn. lia. }
  pose proof (length_contents _ _ Vo) as Lo. rewrite C in Lo.
  split; [lia |]. split; [lia |]. rewrite C. lia.
Qed.

(** The sample box: 51 bytes in, 11 bytes out. *)
Lemma open_length_witness :
  (valid Box.world Box.boxArray /\ byteLength Sample.keyArray = 32%nat /\
   open SecretBoxLive Sample.keyArray Box.boxArray Box.world
     = (Success Box.openedArray, Box.openedWorld)) /\
  length (contents Box.openedWorld Box.openedArray) = 11%nat.
Proof.
  assert (V : valid Box.world Box.boxArray) by (split; vm_compute; lia).
  assert (O : open SecretBoxLive Sample.keyArray Box.boxArray Box.world
              = (Success Box.openedArray, Box.openedWorld)) by (vm_compute; reflexivity).
  split; [split; [exact V | split; [reflexivity | exact O]] |].
  apply (open_length Sample.keyArray Box.boxArray Box.openedArray Box.world Box.openedWorld
           V eq_refl O).
Defined.

(** ** seal as a function of the nonce and the plaintext *)

Lemma encrypt_injective (key nonce p1 p2 : bytes) :
  XSalsa20Poly1305.encrypt key nonce p1 = XSalsa20Poly1305.encrypt key nonce p2 -> p1 = p2.
Proof.
  intros E.
  pose proof (decrypt_encrypt key nonce p1) as D1.
  rewrite E, decrypt_encrypt in D1. congruence.
Qed.

(** Two boxes sealed under the same key bytes hold the same bytes exactly
    when the same 24 bytes were drawn and the plaintexts are the same: a box
    tells its plaintext, and sealing the same plaintext again gives the same
    box only if the random source repeats itself. *)
Theorem seal_injective (key1 key2 plaintext1 plaintext2 : Uint8Array) (w1 w2 : World) :
  valid w1 key1 -> valid w1 plaintext1 -> byteLength key1 = 32%nat ->
  valid w2 key2 -> valid w2 plaintext2 -> byteLength key2 = 32%nat ->
  contents w1 key1 = contents w2 key2 ->
  exists out1 w1' out2 w2',
    seal SecretBoxLive key1 plaintext1 w1 = (Success out1, w1') /\
    seal SecretBoxLive key2 plaintext2 w2 = (Success out2, w2') /\
    (contents w1' out1 = contents w2' out2 <->
     map (entropy w1) (seq 0 24) = map (entropy w2) (seq 0 24) /\
     contents w1 plaintext1 = contents w2 plaintext2).
Proof.
  intros Vk1 Vp1 L1 Vk2 Vp2 L2 K.
  destruct (seal_run key1 plaintext1 w1 Vk1 Vp1 L1) as (o1 & w1' & R1 & _ & _ & _ & _ & C1).
  destruct (seal_run key2 plaintext2 w2 Vk2 Vp2 L2) as (o2 & w2' & R2 & _ & _ & _ & _ & C2).
  exists o1, w1', o2, w2'. split; [exact R1 |]. split; [exact R2 |].
  rewrite C1, C2, K. unfold Spec.sealed.
  set (N1 := map (entropy w1) (seq 0 24)). set (N2 := map (entropy w2) (seq 0 24)).
  assert (LN1 : length N1 = 24%nat) by apply length_nonce.
  assert (LN2 : length N2 = 24%nat) by apply length_nonce.
  split.
  - intros E.
    assert (EN : N1 = N2).
    { apply (f_equal (firstn 24)) in E.
      rewrite (firstn_prefix 24 N1 _ LN1), (firstn_prefix 24 N2 _ LN2) in E. exact E. }
    split; [exact EN |].
    apply (f_equal (skipn 24)) in E.
    rewrite (skipn_prefix 24 N1 _ LN1), (skipn_prefix 24 N2 _ LN2), EN in E.
    eapply encrypt_injective. exact E.
  - intros [-> ->]. reflexivity.
Qed.

(** The sample message sealed from two random sources that differ. *)
Lemma seal_injective_witness :
  (valid Sample.world Sample.keyArray /\ valid Sample.world Sample.messageArray /\
   valid Box.otherWorld Sample.keyArray /\ valid Box.otherWorld Sample.messageArray /\
   contents Sample.world Sample.keyArray = contents Box.otherWorld Sample.keyArray) /\
  exists out1 w1' out2 w2',
    seal SecretBoxLive Sample.keyArray Sample.messageArray Sample.world = (Success out1, w1') /\
    seal SecretBoxLive Sample.keyArray Sample.messageArray Box.otherWorld
      = (Success out2, w2') /\
    contents w1' out1 <> contents w2' out2.
Proof.
  assert (Vk1 : valid Sample.world Sample.keyArray) by (split; vm_compute; lia).
  assert (Vp1 : valid Sample.world Sample.messageArray) by (split; vm_compute; lia).
  assert (Vk2 : valid Box.otherWorld Sample.keyArray) by (split; vm_compute; lia).
  assert (Vp2 : valid Box.otherWorld Sample.messageArray) by (split; vm_compute; lia).
  split; [repeat split; try apply Vk1; try apply Vp1; try apply Vk2; try apply Vp2 |].
  destruct (seal_injective Sample.keyArray Sample.keyArray Sample.messageArray
              Sample.messageArray Sample.world Box.otherWorld
              Vk1 Vp1 eq_refl Vk2 Vp2 eq_refl eq_refl)
    as (o1 & w1' & o2 & w2' & R1 & R2 & I).
  exists o1, w1', o2, w2'. split; [exact R1 |]. split; [exact R2 |].
  intros E. apply I in E. destruct E as [E _]. vm_compute in E. discriminate.
Defined.

(** Sealing twice: the second call draws the 24 bytes that follow those of
    the first, so that the two nonces are two windows of the random source
    that do not overlap, and the first box is not touched by the second
    call. *)
Theorem seal_twice (key plaintext1 plaintext2 : Uint8Array) (w : World) :
  valid w key -> valid w plaintext1 -> valid w plaintext2 -> byteLength key = 32%nat ->
  exists out1 w1 out2 w2,
    seal SecretBoxLive key plaintext1 w = (Success out1, w1) /\
    seal SecretBoxLive key plaintext2 w1 = (Success out2, w2) /\
    firstn 24 (contents w2 out1) = map (entropy w) (seq 0 24) /\
    firstn 24 (contents w2 out2) = map (entropy w) (seq 24 24) /\
    contents w2 out1 = contents w1 out1 /\
    drawn 48 w w2.
Proof.
  intros Vk Vp1 Vp2 L.
  destruct (seal_run key plaintext1 w Vk Vp1 L) as (o1 & w1 & R1 & U1 & D1 & V1 & _ & C1).
  destruct (seal_run key plaintext2 w1 (valid_unchanged _ _ _ U1 Vk)
              (valid_unchanged _ _ _ U1 Vp2) L) as (o2 & w2 & R2 & U2 & D2 & _ & _ & C2).
  exists o1, w1, o2, w2. split; [exact R1 |]. split; [exact R2 |].
  assert (K : contents w2 o1 = contents w1 o1)
    by (apply contents_unchanged; [exact U2 | apply V1]).
  split; [rewrite K, C1; apply firstn_prefix, length_nonce |].
  split.
  { rewrite C2. unfold Spec.sealed. rewrite (firstn_prefix 24 _ _ (length_nonce _)).
    rewrite (map_ext _ _ D1). reflexivity. }
  split; [exact K |].
  intros i. rewrite D2, D1. f_equal; lia.
Qed.

(** The sample message sealed twice. *)
Lemma seal_twice_witness :
  (valid Sample.world Sample.keyArray /\ valid Sample.world Sample.messageArray /\
   byteLength Sample.keyArray = 32%nat) /\
  exists out1 w1 out2 w2,
    seal SecretBoxLive Sample.keyArray Sample.messageArray Sample.world = (Success out1, w1) /\
    seal SecretBoxLive Sample.keyArray Sample.messageArray w1 = (Success out2, w2) /\
    firstn 24 (contents w2 out2) = map Sample.source (seq 24 24).
Proof.
  assert (Vk : valid Sample.world Sample.keyArray) by (split; vm_compute; lia).
  assert (Vp : valid Sample.world Sample.messageArray) by (split; vm_compute; lia).
  split; [split; [exact Vk | split; [exact Vp | reflexivity]] |].
  destruct (seal_twice Sample.keyArray Sample.messageArray Sample.messageArray Sample.world
              Vk Vp Vp eq_refl) as (o1 & w1 & o2 & w2 & R1 & R2 & _ & N2 & _).
  exists o1, w1, o2, w2. split; [exact R1 |]. split; [exact R2 | exact N2].
Defined.

(** ** From the seed to the box *)

(** The key that [slip21Derive] returns fits the secret box: whatever the
    seed and the path are, sealing under the derived key and opening under it
    succeed and give the plaintext back. *)
Theorem derived_key_seals_and_opens (seed plaintext : Uint8Array) (path : list JsString)
  (w : World) :
  valid w plaintext ->
  exists key w1 sealed w2 opened w3,
    slip21Derive seed path w = (Success key, w1) /\
    seal SecretBoxLive key plaintext w1 = (Success sealed, w2) /\
    open SecretBoxLive key sealed w2 = (Success opened, w3) /\
    contents w3 opened = contents w plaintext /\
    contents w3 key = Spec.derive (contents w seed) path.
Proof.
  intros Vp.
  destruct (slip21Derive_run seed path w) as (key & w1 & R0 & U0 & _ & Vk & Lk & _ & Ck).
  pose proof (valid_unchanged _ _ _ U0 Vp) as Vp1.
  destruct (seal_run key plaintext w1 Vk Vp1 Lk) as (ct & w2 & R1 & U1 & _ & V1 & _ & C1).
  assert (Kk : contents w2 key = contents w1 key)
    by (apply contents_unchanged; [exact U1 | apply Vk]).
  rewrite <- Kk in C1.
  destruct (open_sealed_run key ct w2 _ _ V1 Lk (length_nonce _) C1)
    as (out & w3 & R2 & C2 & _ & U2).
  exists key, w1, ct, w2, out, w3.
  split; [exact R0 |]. split; [exact R1 |]. split; [exact R2 |].
  split.
  - rewrite C2. apply contents_unchanged; [exact U0 | apply Vp].
  - rewrite <- Ck, <- Kk. apply contents_unchanged; [exact U2 |].
    destruct U1 as [Le _]. destruct Vk as [Hb _]. lia.
Qed.

(** The sample message under the key of the node ["SLIP-0021"]. *)
Lemma derived_key_seals_and_opens_witness :
  valid Sample.world Sample.messageArray /\
  exists key w1 sealed w2 opened w3,
    slip21Derive Sample.seedArray [str "SLIP-0021"] Sample.world = (Success key, w1) /\
    seal SecretBoxLive key Sample.messageArray w1 = (Success sealed, w2) /\
    open SecretBoxLive key sealed w2 = (Success opened, w3) /\
    contents w3 opened = Sample.message.
Proof.
  assert (Vp : valid Sample.world Sample.messageArray) by (split; vm_compute; lia).
  split; [exact Vp |].
  destruct (derived_key_seals_and_opens Sample.seedArray Sample.messageArray
              [str "SLIP-0021"] Sample.world Vp)
    as (key & w1 & ct & w2 & out & w3 & R0 & R1 & R2 & C & _).
  exists key, w1, ct, w2, out, w3.
  split; [exact R0 |]. split; [exact R1 |]. split; [exact R2 | exact C].
Defined.

(** ** Labels that encode alike *)

Lemma derive_by_encoding (seed : bytes) (path1 path2 : list JsString) :
  map TextEncoder.encode path1 = map TextEncoder.encode path2 ->
  Spec.derive seed path1 = Spec.derive seed path2.
Proof.
  intros E. unfold Spec.derive. f_equal.
  generalize (Spec.root seed) as m. revert path2 E.
  induction path1 as [| l1 p1 IH]; intros [| l2 p2] E m; try discriminate; [reflexivity |].
  simpl in E. injection E as El Ep. simpl.
  unfold Spec.child at 2 4. rewrite El. apply IH. exact Ep.
Qed.

(** [slip21Derive] sees a label through its UTF-8 encoding only: two paths
    whose labels encode to the same bytes give the same key.  [TextEncoder]
    writes U+FFFD for every unpaired surrogate, so labels that differ in such
    code units are not told apart. *)
Theorem slip21Derive_by_encoding (seed : Uint8Array) (path1 path2 : list JsString)
  (w : World) :
  map TextEncoder.encode path1 = map TextEncoder.encode path2 ->
  exists out1 w1 out2 w2,
    slip21Derive seed path1 w = (Success out1, w1) /\
    slip21Derive seed path2 w = (Success out2, w2) /\
    contents w1 out1 = contents w2 out2.
Proof.
  intros E.
  destruct (slip21Derive_run seed path1 w) as (o1 & w1 & R1 & _ & _ & _ & _ & _ & C1).
  destruct (slip21Derive_run seed path2 w) as (o2 & w2 & R2 & _ & _ & _ & _ & _ & C2).
  exists o1, w1, o2, w2. split; [exact R1 |]. split; [exact R2 |].
  rewrite C1, C2. apply derive_by_encoding. exact E.
Qed.

(** Two different labels, each an unpaired surrogate, give one key. *)
Lemma slip21Derive_by_encoding_witness :
  (Box.highLabel <> Box.lowLabel /\
   map TextEncoder.encode [Box.highLabel] = map TextEncoder.encode [Box.lowLabel]) /\
  exists out1 w1 out2 w2,
    slip21Derive Sample.seedArray [Box.highLabel] Sample.world = (Success out1, w1) /\
    slip21Derive Sample.seedArray [Box.lowLabel] Sample.world = (Success out2, w2) /\
    contents w1 out1 = contents w2 out2.
Proof.
  split; [split; [discriminate | reflexivity] |].
  apply (slip21Derive_by_encoding Sample.seedArray [Box.highLabel] [Box.lowLabel] Sample.world).
  reflexivity.
Defined.

(** ** NanoId *)






(** ** A flipped bit of the tag *)

(** Bit 200 of the sample box lies in its tag. *)
Lemma tampered_tag_rejected_witness :
  (valid Box.tamperedWorld Box.boxArray /\ byteLength Sample.keyArray = 32%nat /\
   length Box.nonce = 24%nat /\ (24 * 8 <= 200 < 40 * 8)%nat /\
   contents Box.tamperedWorld Box.boxArray
     = Spec.flip_bit 200
         (Spec.sealed (contents Box.tamperedWorld Sample.keyArray) Box.nonce Sample.message)) /\
  open SecretBoxLive Sample.keyArray Box.boxArray Box.tamperedWorld
    = (Die InvalidTagError, Box.tamperedWorld).
Proof.
  assert (V : valid Box.tamperedWorld Box.boxArray) by (split; vm_compute; lia).
  assert (I : (24 * 8 <= 200 < 40 * 8)%nat) by (vm_compute; lia).
  assert (C : contents Box.tamperedWorld Box.boxArray
              = Spec.flip_bit 200
                  (Spec.sealed (contents Box.tamperedWorld Sample.keyArray) Box.nonce
                     Sample.message)) by (vm_compute; reflexivity).
  split; [split; [exact V | split; [reflexivity | split; [reflexivity | split; [exact I | exact C]]]] |].
  apply (tampered_tag_rejected Sample.keyArray Box.boxArray Box.tamperedWorld Box.nonce
           Sample.message 200 V eq_refl eq_refl I C).
Defined.
